(** * The Graph credential manager of teams-mcp

    A shallow embedding of [GraphService] (services/graph.ts): token
    validation, lazy initialisation, the authentication probe and the
    token supplier handed to the Graph client.  Line numbers are those
    of services/graph.ts.

    JavaScript strings are sequences of UTF-16 code units; they are
    modelled as [list N].  [process.env] is a finite map from variable
    names to strings.  The builtins the code calls ([split], [atob],
    [JSON.parse], property access, [includes]) are modelled in [JS];
    the MSAL application and the Graph client are modelled by what the
    service does with them: a token request that resolves to a result
    or to [null] or rejects, and a GET that succeeds or fails after the
    client has asked its provider for a token.

    The methods are [async]: each is cut at its [await]s into pieces
    that run without interruption.  The pieces are composed twice: into
    functions that run one call to its end ([getClient], ...), and into
    a machine on which any number of calls interleave.

    Around the service: the start-up check of index.ts ([Index]), and
    of tools/teams.ts the tool [delete_channel_message], the [TEAM_IDS]
    filter of [list_teams] and the path handling of
    [download_message_hosted_content] ([Tools]). *)

From Stdlib Require Import NArith List Ascii String Bool Lia.
From stdpp Require Import base option numbers list strings gmap.

Open Scope N_scope.

(** * The JavaScript runtime *)

Module JS.

Abbreviation jsstring := (list N).

(** The code units of a string literal of the source. *)
Definition js (s : string) : jsstring :=
  map N_of_ascii (list_ascii_of_string s).

(** A value of type [string | undefined] is truthy when it is a
    non-empty string. *)
Definition truthy (v : option jsstring) : option jsstring :=
  match v with
  | Some (c :: s) => Some (c :: s)
  | _ => None
  end.

(** [s.split(sep)] for a separator of one code unit: the pieces between
    the occurrences of [sep], always at least one piece. *)
Fixpoint split (sep : N) (s : jsstring) : list jsstring :=
  match s with
  | [] => [[]]
  | c :: r =>
      if c =? sep then [] :: split sep r
      else match split sep r with
           | piece :: pieces => (c :: piece) :: pieces
           | [] => [[c]]
           end
  end.

(** [pieces.join(sep)], the inverse of [split]. *)
Fixpoint join (sep : N) (pieces : list jsstring) : jsstring :=
  match pieces with
  | [] => []
  | [piece] => piece
  | piece :: rest => piece ++ sep :: join sep rest
  end.

(** [s.includes(sub)]: [sub] occurs in [s] as a contiguous run. *)
Fixpoint starts_with (sub s : jsstring) : bool :=
  match sub, s with
  | [], _ => true
  | a :: sub', b :: s' => (a =? b) && starts_with sub' s'
  | _ :: _, [] => false
  end.

Fixpoint str_includes (s sub : jsstring) : bool :=
  starts_with sub s ||
  match s with
  | [] => false
  | _ :: s' => str_includes s' sub
  end.

(** *** atob

    The forgiving base64 decoder behind [atob]: ASCII whitespace is
    dropped, up to two padding signs are dropped when the length is a
    multiple of four, a length of 1 modulo 4 or a code unit outside the
    alphabet is an error ([None] stands for the exception thrown), and
    the leftover bits of a final partial group are discarded. *)

Definition is_ascii_whitespace (c : N) : bool :=
  (c =? 9) || (c =? 10) || (c =? 12) || (c =? 13) || (c =? 32).

Definition base64_value (c : N) : option N :=
  if (65 <=? c) && (c <=? 90) then Some (c - 65)          (* A-Z *)
  else if (97 <=? c) && (c <=? 122) then Some (c - 71)    (* a-z *)
  else if (48 <=? c) && (c <=? 57) then Some (c + 4)      (* 0-9 *)
  else if c =? 43 then Some 62                            (* + *)
  else if c =? 47 then Some 63                            (* / *)
  else None.

Definition strip_padding (data : jsstring) : jsstring :=
  if (N.of_nat (length data) mod 4 =? 0) then
    match rev data with
    | x :: rest =>
        if x =? 61 then
          match rest with
          | y :: r => if y =? 61 then rev r else rev rest
          | [] => []
          end
        else data
    | [] => data
    end
  else data.

Fixpoint sextets (data : jsstring) : option (list N) :=
  match data with
  | [] => Some []
  | c :: r =>
      match base64_value c, sextets r with
      | Some v, Some vs => Some (v :: vs)
      | _, _ => None
      end
  end.

Fixpoint bytes_of_sextets (vs : list N) : list N :=
  match vs with
  | a :: b :: c :: d :: r =>
      let n := a * 262144 + b * 4096 + c * 64 + d in
      (n / 65536) :: ((n / 256) mod 256) :: (n mod 256) :: bytes_of_sextets r
  | [a; b; c] =>
      let n := (a * 4096 + b * 64 + c) / 4 in
      [n / 256; n mod 256]
  | [a; b] => [(a * 64 + b) / 16]
  | _ => []
  end.

Definition atob (data : jsstring) : option jsstring :=
  let data := filter (fun c => is_ascii_whitespace c = false) data in
  let data := strip_padding data in
  if N.of_nat (length data) mod 4 =? 1 then None
  else option_map bytes_of_sextets (sextets data).

(** *** JSON.parse

    The values [JSON.parse] produces.  A number is kept as its source
    text (nothing in this program computes with it).  The members of an
    object are kept in source order; when a name occurs twice the later
    member is the one the object ends up with, see [own_property]. *)

#[warnings="-register-all"]
Inductive JSON : Type :=
| JNull
| JBool (b : bool)
| JNumber (text : jsstring)
| JString (s : jsstring)
| JArray (items : list JSON)
| JObject (members : list (jsstring * JSON)).

(** The parser is a pushdown automaton fed one code unit at a time: a
    mode, and a stack of the arrays and objects still open. *)

Inductive StringRole : Type := AsKey | AsValue.

Inductive NumState : Type :=
| NMinus | NZero | NInt | NDot | NFrac | NExp | NExpSign | NExpDigits.

Inductive Mode : Type :=
| ExpectValue (closable : bool)      (* closable: directly after '[' *)
| ExpectKey (closable : bool)        (* closable: directly after '{' *)
| ExpectColon
| AfterValue
| Finished (v : JSON)
| InString (role : StringRole) (acc : jsstring)
| InEscape (role : StringRole) (acc : jsstring)
| InUnicode (role : StringRole) (acc : jsstring) (digits : list N)
| InNumber (st : NumState) (acc : jsstring)
| InLiteral (rest : jsstring) (v : JSON).

Inductive Frame : Type :=
| ArrayFrame (items : list JSON)
| ObjectFrame (members : list (jsstring * JSON)) (key : option jsstring).

Record Parser : Type := MkParser { mode : Mode; stack : list Frame }.

Definition is_json_whitespace (c : N) : bool :=
  (c =? 9) || (c =? 10) || (c =? 13) || (c =? 32).

Definition is_digit (c : N) : bool := (48 <=? c) && (c <=? 57).

Definition hex_value (c : N) : option N :=
  if is_digit c then Some (c - 48)
  else if (97 <=? c) && (c <=? 102) then Some (c - 87)
  else if (65 <=? c) && (c <=? 70) then Some (c - 55)
  else None.

(** A value is complete: it is the result, or goes into the innermost
    open array or object. *)
Definition complete_value (st : list Frame) (v : JSON) : option Parser :=
  match st with
  | [] => Some (MkParser (Finished v) [])
  | ArrayFrame items :: st' =>
      Some (MkParser AfterValue (ArrayFrame (v :: items) :: st'))
  | ObjectFrame members (Some k) :: st' =>
      Some (MkParser AfterValue (ObjectFrame ((k, v) :: members) None :: st'))
  | ObjectFrame _ None :: _ => None
  end.

Definition close_array (st : list Frame) : option Parser :=
  match st with
  | ArrayFrame items :: st' => complete_value st' (JArray (rev items))
  | _ => None
  end.

Definition close_object (st : list Frame) : option Parser :=
  match st with
  | ObjectFrame members None :: st' => complete_value st' (JObject (rev members))
  | _ => None
  end.

(** What may follow a complete value. *)
Definition step_after (p : Parser) (c : N) : option Parser :=
  match mode p with
  | Finished v => if is_json_whitespace c then Some p else None
  | AfterValue =>
      if is_json_whitespace c then Some p
      else if c =? 44 (* , *) then
        match stack p with
        | ArrayFrame _ :: _ => Some (MkParser (ExpectValue false) (stack p))
        | ObjectFrame _ None :: _ => Some (MkParser (ExpectKey false) (stack p))
        | _ => None
        end
      else if c =? 93 (* ] *) then close_array (stack p)
      else if c =? 125 (* } *) then close_object (stack p)
      else None
  | _ => None
  end.

Definition begin_value (st : list Frame) (c : N) : option Parser :=
  if c =? 34 (* quote *) then Some (MkParser (InString AsValue []) st)
  else if c =? 45 (* - *) then Some (MkParser (InNumber NMinus [c]) st)
  else if c =? 48 (* 0 *) then Some (MkParser (InNumber NZero [c]) st)
  else if is_digit c then Some (MkParser (InNumber NInt [c]) st)
  else if c =? 116 (* t *) then Some (MkParser (InLiteral (js "rue") (JBool true)) st)
  else if c =? 102 (* f *) then Some (MkParser (InLiteral (js "alse") (JBool false)) st)
  else if c =? 110 (* n *) then Some (MkParser (InLiteral (js "ull") JNull) st)
  else if c =? 91 (* [ *) then Some (MkParser (ExpectValue true) (ArrayFrame [] :: st))
  else if c =? 123 (* { *) then Some (MkParser (ExpectKey true) (ObjectFrame [] None :: st))
  else None.

Definition end_string (role : StringRole) (s : jsstring) (st : list Frame)
  : option Parser :=
  match role with
  | AsValue => complete_value st (JString s)
  | AsKey =>
      match st with
      | ObjectFrame members None :: st' =>
          Some (MkParser ExpectColon (ObjectFrame members (Some s) :: st'))
      | _ => None
      end
  end.

Definition unescape (c : N) : option N :=
  if c =? 34 then Some 34            (* quote *)
  else if c =? 92 then Some 92       (* backslash *)
  else if c =? 47 then Some 47       (* slash *)
  else if c =? 98 then Some 8        (* b: backspace *)
  else if c =? 102 then Some 12      (* f: form feed *)
  else if c =? 110 then Some 10      (* n: line feed *)
  else if c =? 114 then Some 13      (* r: carriage return *)
  else if c =? 116 then Some 9       (* t: tab *)
  else None.

Inductive NumAction : Type := NumContinue (st : NumState) | NumStop | NumBad.

Definition is_exponent_mark (c : N) : bool := (c =? 101) || (c =? 69).

Definition num_step (st : NumState) (c : N) : NumAction :=
  match st with
  | NMinus =>
      if c =? 48 then NumContinue NZero
      else if is_digit c then NumContinue NInt else NumBad
  | NZero =>
      if c =? 46 then NumContinue NDot
      else if is_exponent_mark c then NumContinue NExp else NumStop
  | NInt =>
      if is_digit c then NumContinue NInt
      else if c =? 46 then NumContinue NDot
      else if is_exponent_mark c then NumContinue NExp else NumStop
  | NDot => if is_digit c then NumContinue NFrac else NumBad
  | NFrac =>
      if is_digit c then NumContinue NFrac
      else if is_exponent_mark c then NumContinue NExp else NumStop
  | NExp =>
      if (c =? 43) || (c =? 45) then NumContinue NExpSign
      else if is_digit c then NumContinue NExpDigits else NumBad
  | NExpSign => if is_digit c then NumContinue NExpDigits else NumBad
  | NExpDigits => if is_digit c then NumContinue NExpDigits else NumStop
  end.

Definition num_accepting (st : NumState) : bool :=
  match st with
  | NZero | NInt | NFrac | NExpDigits => true
  | _ => false
  end.

Definition step (p : Parser) (c : N) : option Parser :=
  let st := stack p in
  match mode p with
  | ExpectValue closable =>
      if is_json_whitespace c then Some p
      else if closable && (c =? 93) then close_array st
      else begin_value st c
  | ExpectKey closable =>
      if is_json_whitespace c then Some p
      else if closable && (c =? 125) then close_object st
      else if c =? 34 then Some (MkParser (InString AsKey []) st)
      else None
  | ExpectColon =>
      if is_json_whitespace c then Some p
      else if c =? 58 then Some (MkParser (ExpectValue false) st)
      else None
  | AfterValue | Finished _ => step_after p c
  | InString role acc =>
      if c =? 34 then end_string role (rev acc) st
      else if c =? 92 then Some (MkParser (InEscape role acc) st)
      else if c <? 32 then None
      else Some (MkParser (InString role (c :: acc)) st)
  | InEscape role acc =>
      if c =? 117 (* u *) then Some (MkParser (InUnicode role acc []) st)
      else match unescape c with
           | Some d => Some (MkParser (InString role (d :: acc)) st)
           | None => None
           end
  | InUnicode role acc digits =>
      match hex_value c with
      | None => None
      | Some h =>
          match digits with
          | [d1; d2; d3] =>
              let u := d1 * 4096 + d2 * 256 + d3 * 16 + h in
              Some (MkParser (InString role (u :: acc)) st)
          | _ => Some (MkParser (InUnicode role acc (digits ++ [h])) st)
          end
      end
  | InNumber ns acc =>
      match num_step ns c with
      | NumContinue ns' => Some (MkParser (InNumber ns' (c :: acc)) st)
      | NumStop =>
          match complete_value st (JNumber (rev acc)) with
          | Some p' => step_after p' c
          | None => None
          end
      | NumBad => None
      end
  | InLiteral rest v =>
      match rest with
      | [] => None
      | d :: rest' =>
          if c =? d then
            match rest' with
            | [] => complete_value st v
            | _ => Some (MkParser (InLiteral rest' v) st)
            end
          else None
      end
  end.

Fixpoint feed (p : Parser) (text : jsstring) : option Parser :=
  match text with
  | [] => Some p
  | c :: r =>
      match step p c with
      | Some p' => feed p' r
      | None => None
      end
  end.

(** At the end of the text the value must be complete; a number at top
    level ends with the text. *)
Definition finish (p : Parser) : option JSON :=
  match mode p, stack p with
  | Finished v, _ => Some v
  | InNumber ns acc, [] =>
      if num_accepting ns then Some (JNumber (rev acc)) else None
  | _, _ => None
  end.

(** [JSON.parse(text)]; [None] stands for the SyntaxError thrown. *)
Definition JSON_parse (text : jsstring) : option JSON :=
  match feed (MkParser (ExpectValue false) []) text with
  | Some p => finish p
  | None => None
  end.

(** [obj.name] on a parsed object: the last member with that name; the
    prototype of such an object has no property of the names looked up
    here.  [None] is [undefined]. *)
Fixpoint own_property (members : list (jsstring * JSON)) (name : jsstring)
  : option JSON :=
  match members with
  | [] => None
  | (k, v) :: rest =>
      match own_property rest name with
      | Some later => Some later
      | None => if decide (k = name) then Some v else None
      end
  end.

End JS.

Import JS.

(** * The credential manager *)

Module Graph.

Definition CLIENT_CREDENTIAL_SCOPE : jsstring :=
  js "https://graph.microsoft.com/.default".

(** The audience a static token must carry (line 149). *)
Definition GRAPH_AUDIENCE : jsstring := js "https://graph.microsoft.com".

(** *** validateToken (lines 139-159) *)

(** [payload.aud].  Reading a property of [null] throws ([None]); a
    number, boolean, string or array has no property of that name
    ([Some None] is [undefined]). *)
Definition payload_aud (payload : JSON) : option (option JSON) :=
  match payload with
  | JNull => None
  | JObject members => Some (own_property members (js "aud"))
  | _ => Some None
  end.

(** [Array.isArray(payload.aud) ? payload.aud : [payload.aud]] *)
Definition audiences (aud : option JSON) : list (option JSON) :=
  match aud with
  | Some (JArray items) => map Some items
  | _ => [aud]
  end.

(** [arr.includes(s)] for a string [s]: some element is that string. *)
Definition includes (arr : list (option JSON)) (s : jsstring) : bool :=
  existsb (fun x => match x with
                    | Some (JString t) => bool_decide (t = s)
                    | _ => false
                    end) arr.

(** The three ways out of [validateToken] without the token, and the
    one with it. *)
Inductive Validation : Type :=
| Valid
| MissingClaims      (* lines 141-144 *)
| NotGraphToken      (* lines 149-152 *)
| ParseFailure.      (* lines 153-156: the catch *)

Definition validation (token : jsstring) : Validation :=
  let tokenSplits := split 46 token in
  if negb (Nat.eqb (length tokenSplits) 3) then MissingClaims
  else
    match atob (nth 1 tokenSplits []) with
    | None => ParseFailure
    | Some decoded =>
        match JSON_parse decoded with
        | None => ParseFailure
        | Some payload =>
            match payload_aud payload with
            | None => ParseFailure
            | Some aud =>
                if includes (audiences aud) GRAPH_AUDIENCE then Valid
                else NotGraphToken
            end
        end
    end.

Definition validateToken (token : jsstring) : option jsstring :=
  match validation token with
  | Valid => Some token
  | _ => None
  end.

(** What [validateToken] writes with [console.error]. *)
Definition validateToken_console (token : jsstring) : option jsstring :=
  match validation token with
  | Valid => None
  | MissingClaims => Some (js "Invalid JWT token: missing claims")
  | NotGraphToken =>
      Some (js "Invalid JWT token: Not a valid Microsoft Graph token")
  | ParseFailure => Some (js "Invalid JWT token: Failed to parse payload")
  end.

(** *** State *)

Record JsError : Type := MkError { message : jsstring }.

Inductive Completion (A : Type) : Type :=
| Normal (a : A)
| Throw (e : JsError).
Arguments Normal {A} a.
Arguments Throw {A} e.

(** The [getAccessToken] closure given to [Client.initWithMiddleware]:
    [async () => validatedToken] (line 36) or
    [() => this.acquireToken()] (line 76). *)
Inductive AccessTokenProvider : Type :=
| FixedToken (validatedToken : jsstring)
| ViaAcquireToken.

(** A Graph client object: its identity and its token provider. *)
Record Client : Type := MkClient {
  client_ref : nat;
  authProvider : AccessTokenProvider
}.

(** The [auth] configuration a [ConfidentialClientApplication] is
    constructed with (lines 56-62). *)
Module Msal.
Record ConfidentialClientApplication : Type := Build {
  clientId : jsstring;
  clientSecret : jsstring;
  authority : jsstring
}.
End Msal.
Abbreviation ConfidentialClientApplication := Msal.ConfidentialClientApplication.

Record GraphService : Type := MkService {
  client : option Client;
  isInitialized : bool;
  msalApp : option ConfidentialClientApplication
}.

(** [AuthStatus] (lines 6-10); an absent field is [None]. *)
Module Status.
Record AuthStatus : Type := Build {
  isAuthenticated : bool;
  tenantId : option jsstring;
  clientId : option jsstring
}.
End Status.
Abbreviation AuthStatus := Status.AuthStatus.

(** [{ isAuthenticated: false }] *)
Definition unauthenticated : AuthStatus := Status.Build false None None.

(** What [acquireTokenByClientCredential] settles with: a result, [null],
    or a rejection. *)
Record AuthenticationResult : Type := MkAuthResult { accessToken : jsstring }.

Inductive IssuerOutcome : Type :=
| IssuerResolves (result : option AuthenticationResult)
| IssuerRejects (e : JsError).

(** What the program does to the outside, most recent first. *)
Inductive Event : Type :=
| EnvRead (name : string)
| ConsoleError (text : jsstring)
| TokenRequest (app : ConfidentialClientApplication) (scopes : list jsstring)
| ClientCreated (c : Client)
| GraphGet (path : jsstring) (token : jsstring).

Record World : Type := MkWorld {
  this : GraphService;
  env : gmap string jsstring;
  allocated : nat;
  trace : list Event
}.

Definition note (e : Event) (w : World) : World :=
  MkWorld (this w) (env w) (allocated w) (e :: trace w).

Definition set_this (s : GraphService) (w : World) : World :=
  MkWorld s (env w) (allocated w) (trace w).

Definition set_env (e : gmap string jsstring) (w : World) : World :=
  MkWorld (this w) e (allocated w) (trace w).

(** [process.env.NAME] *)
Definition getenv (name : string) (w : World) : World * option jsstring :=
  (note (EnvRead name) w, env w !! name).

(** [Client.initWithMiddleware({authProvider: ...})]: a new object. *)
Definition initWithMiddleware (p : AccessTokenProvider) (w : World)
  : World * Client :=
  let c := MkClient (allocated w) p in
  (MkWorld (this w) (env w) (S (allocated w)) (ClientCreated c :: trace w), c).

Definition fresh : GraphService := MkService None false None.

Definition boot : World := MkWorld fresh ∅ 0%nat [].

(** The text of lines 50-52. *)
Definition missing_variables : jsstring :=
  js "Missing required environment variables: AZURE_TENANT_ID, AZURE_CLIENT_ID, AZURE_CLIENT_SECRET".

(** *** initializeClient (lines 25-84)

    The body up to its only [await] (line 65); the boolean tells
    whether it stopped there, with the token request sent. *)
Definition initializeClient_begin (w : World) : World * bool :=
  if isInitialized (this w) then (w, false)                     (* 26 *)
  else
    let (w, envToken) := getenv "AUTH_TOKEN" w in               (* 30 *)
    match truthy envToken with                                  (* 31 *)
    | Some envToken =>
        match truthy (validateToken envToken) with              (* 32-33 *)
        | Some validatedToken =>
            let (w, c) := initWithMiddleware (FixedToken validatedToken) w in
            (set_this (MkService (Some c) true (msalApp (this w))) w, false)
        | None =>
            (match validateToken_console envToken with
             | Some text => note (ConsoleError text) w
             | None => w
             end, false)                                        (* 41 *)
        end
    | None =>
        let (w, tenantId) := getenv "AZURE_TENANT_ID" w in      (* 45 *)
        let (w, clientId) := getenv "AZURE_CLIENT_ID" w in      (* 46 *)
        let (w, clientSecret) := getenv "AZURE_CLIENT_SECRET" w in
        match truthy tenantId, truthy clientId, truthy clientSecret with
        | Some tenantId, Some clientId, Some clientSecret =>
            let app :=
              Msal.Build clientId clientSecret
                (js "https://login.microsoftonline.com/" ++ tenantId) in
            let w :=
              set_this (MkService (client (this w)) (isInitialized (this w))
                          (Some app)) w in                      (* 56 *)
            (note (TokenRequest app [CLIENT_CREDENTIAL_SCOPE]) w, true)
        | _, _, _ =>
            (note (ConsoleError missing_variables) w, false)    (* 49-54 *)
        end
    end.

(** The rest of the body, once the token request has settled
    (lines 65-83). *)
Definition initializeClient_end (r : IssuerOutcome) (w : World) : World :=
  match r with
  | IssuerRejects e =>                                          (* 81-83 *)
      note (ConsoleError (js "Failed to initialize Graph client:")) w
  | IssuerResolves None => w                                    (* 69-71 *)
  | IssuerResolves (Some _) =>                                  (* 74-80 *)
      let (w, c) := initWithMiddleware ViaAcquireToken w in
      set_this (MkService (Some c) true (msalApp (this w))) w
  end.

(** *** acquireToken (lines 86-102), around its [await] (line 91) *)

Definition acquire_failed : JsError :=
  MkError (js "Failed to acquire access token. Check AZURE_TENANT_ID, AZURE_CLIENT_ID, and AZURE_CLIENT_SECRET.").

Definition acquireToken_begin (w : World) : World * option JsError :=
  match msalApp (this w) with
  | None => (w, Some (MkError (js "MSAL not initialized")))     (* 87-89 *)
  | Some app => (note (TokenRequest app [CLIENT_CREDENTIAL_SCOPE]) w, None)
  end.

Definition acquireToken_end (r : IssuerOutcome) : Completion jsstring :=
  match r with
  | IssuerRejects e => Throw e
  | IssuerResolves None => Throw acquire_failed                 (* 95-99 *)
  | IssuerResolves (Some result) => Normal (accessToken result) (* 101 *)
  end.

(** *** getAuthStatus (lines 104-122) and getClient (lines 124-133) *)

Definition ORGANIZATION : jsstring := js "/organization".

(** What happens to the probe [this.client.api("/organization").get()]
    before it first waits: the client asks its provider for a token,
    then sends the request with it. *)
Inductive ProbeState : Type :=
| ProbeAtIssuer            (* waiting for the token request of acquireToken *)
| ProbeAtGraph             (* waiting for the answer of Graph *)
| ProbeFailed.             (* the provider threw *)

Definition probe_begin (c : Client) (w : World) : World * ProbeState :=
  match authProvider c with
  | FixedToken token => (note (GraphGet ORGANIZATION token) w, ProbeAtGraph)
  | ViaAcquireToken =>
      match acquireToken_begin w with
      | (w, Some _) => (w, ProbeFailed)
      | (w, None) => (w, ProbeAtIssuer)
      end
  end.

(** Lines 113-121: the outcome of the probe decides the status. *)
Definition getAuthStatus_end (ok : bool) (w : World) : World * AuthStatus :=
  if ok then
    let (w, tenantId) := getenv "AZURE_TENANT_ID" w in           (* 115 *)
    let (w, clientId) := getenv "AZURE_CLIENT_ID" w in           (* 116 *)
    (w, Status.Build true tenantId clientId)
  else (note (ConsoleError (js "Error verifying auth:")) w, unauthenticated).

Definition not_authenticated : JsError :=
  MkError (js "Not authenticated. Check AZURE_TENANT_ID, AZURE_CLIENT_ID, and AZURE_CLIENT_SECRET environment variables.").

(** Lines 127-132. *)
Definition getClient_end (w : World) : Completion Client :=
  match client (this w) with
  | None => Throw not_authenticated
  | Some c => Normal c
  end.

(** Line 136: [!!this.client && this.isInitialized]. *)
Definition isAuthenticated (s : GraphService) : bool :=
  match client s with
  | Some _ => isInitialized s
  | None => false
  end.

(** *** Calls that run to completion

    The outside world answers each request as a function of everything
    that happened so far.  A call that nothing else interleaves with is
    the composition of its pieces. *)

Record Network : Type := MkNetwork {
  issuer : list Event -> IssuerOutcome;
  graph : list Event -> bool
}.

Definition initializeClient (net : Network) (w : World) : World :=
  let (w, waiting) := initializeClient_begin w in
  if waiting then initializeClient_end (issuer net (trace w)) w else w.

Definition acquireToken (net : Network) (w : World)
  : World * Completion jsstring :=
  match acquireToken_begin w with
  | (w, Some e) => (w, Throw e)
  | (w, None) => (w, acquireToken_end (issuer net (trace w)))
  end.

(** [authProvider.getAccessToken()] of a client. *)
Definition getAccessToken (net : Network) (c : Client) (w : World)
  : World * Completion jsstring :=
  match authProvider c with
  | FixedToken validatedToken => (w, Normal validatedToken)
  | ViaAcquireToken => acquireToken net w
  end.

(** [await this.client.api("/organization").get()]: whether it
    resolved. *)
Definition probe (net : Network) (c : Client) (w : World) : World * bool :=
  match probe_begin c w with
  | (w, ProbeFailed) => (w, false)
  | (w, ProbeAtGraph) => (w, graph net (trace w))
  | (w, ProbeAtIssuer) =>
      match acquireToken_end (issuer net (trace w)) with
      | Throw _ => (w, false)
      | Normal token =>
          let w := note (GraphGet ORGANIZATION token) w in
          (w, graph net (trace w))
      end
  end.

Definition getAuthStatus (net : Network) (w : World) : World * AuthStatus :=
  let w := initializeClient net w in                            (* 105 *)
  match client (this w) with
  | None => (w, unauthenticated)                                (* 107-109 *)
  | Some c =>
      let (w, ok) := probe net c w in                           (* 112 *)
      getAuthStatus_end ok w
  end.

Definition getClient (net : Network) (w : World)
  : World * Completion Client :=
  let w := initializeClient net w in                            (* 125 *)
  (w, getClient_end w).

(** *** Calls that overlap

    Every method is asynchronous: at an [await] it gives way to the
    other calls in progress.  The machine keeps, for each call made so
    far, where it waits or what it settled with. *)

Inductive Op : Type :=
| GetAuthStatus
| GetClient
| GetAccessToken (c : Client).

Inductive Pending : Type :=
| AtInitIssuer       (* line 65, inside the awaited initializeClient *)
| AtInitialize       (* lines 105 and 125, initializeClient has settled *)
| AtAcquireIssuer    (* line 91 *)
| AtGraph.           (* line 112, the request is with Graph *)

Inductive Result : Type :=
| StatusResult (s : AuthStatus)
| ClientResult (c : Client)
| TokenResult (token : jsstring)
| Rejected (e : JsError).

Inductive Task : Type :=
| Suspended (p : Pending)
| Settled (r : Result).

Inductive Response : Type :=
| Tick                                 (* the awaited promise had settled *)
| FromIssuer (r : IssuerOutcome)
| FromGraph (ok : bool).

Definition of_completion {A} (f : A -> Result) (c : Completion A) : Result :=
  match c with
  | Normal a => f a
  | Throw e => Rejected e
  end.

Definition start (op : Op) (w : World) : World * Task :=
  match op with
  | GetAuthStatus | GetClient =>
      let (w, waiting) := initializeClient_begin w in
      (w, Suspended (if waiting then AtInitIssuer else AtInitialize))
  | GetAccessToken c =>
      match authProvider c with
      | FixedToken validatedToken => (w, Settled (TokenResult validatedToken))
      | ViaAcquireToken =>
          match acquireToken_begin w with
          | (w, Some e) => (w, Settled (Rejected e))
          | (w, None) => (w, Suspended AtAcquireIssuer)
          end
      end
  end.

Definition settle_status (r : World * AuthStatus) : World * Task :=
  (fst r, Settled (StatusResult (snd r))).

Definition resume (op : Op) (p : Pending) (r : Response) (w : World)
  : option (World * Task) :=
  match op, p, r with
  | (GetAuthStatus | GetClient), AtInitIssuer, FromIssuer r =>
      Some (initializeClient_end r w, Suspended AtInitialize)
  | GetClient, AtInitialize, Tick =>
      Some (w, Settled (of_completion ClientResult (getClient_end w)))
  | GetAuthStatus, AtInitialize, Tick =>
      match client (this w) with
      | None => Some (w, Settled (StatusResult unauthenticated))
      | Some c =>
          match probe_begin c w with
          | (w, ProbeFailed) => Some (settle_status (getAuthStatus_end false w))
          | (w, ProbeAtGraph) => Some (w, Suspended AtGraph)
          | (w, ProbeAtIssuer) => Some (w, Suspended AtAcquireIssuer)
          end
      end
  | GetAuthStatus, AtAcquireIssuer, FromIssuer r =>
      match acquireToken_end r with
      | Throw _ => Some (settle_status (getAuthStatus_end false w))
      | Normal token =>
          Some (note (GraphGet ORGANIZATION token) w, Suspended AtGraph)
      end
  | GetAuthStatus, AtGraph, FromGraph ok =>
      Some (settle_status (getAuthStatus_end ok w))
  | GetAccessToken _, AtAcquireIssuer, FromIssuer r =>
      Some (w, Settled (of_completion TokenResult (acquireToken_end r)))
  | _, _, _ => None
  end.

Record Machine : Type := MkMachine {
  world : World;
  calls : list (Op * Task)
}.

Inductive Action : Type :=
| Call (op : Op)
| Deliver (i : nat) (r : Response)
| SetEnv (e : gmap string jsstring).

Definition perform (a : Action) (m : Machine) : option Machine :=
  match a with
  | Call op =>
      let (w, t) := start op (world m) in
      Some (MkMachine w (calls m ++ [(op, t)]))
  | Deliver i r =>
      match calls m !! i with
      | Some (op, Suspended p) =>
          match resume op p r (world m) with
          | Some (w, t) => Some (MkMachine w (<[i := (op, t)]> (calls m)))
          | None => None
          end
      | _ => None
      end
  | SetEnv e => Some (MkMachine (set_env e (world m)) (calls m))
  end.

Fixpoint perform_all (acts : list Action) (m : Machine) : option Machine :=
  match acts with
  | [] => Some m
  | a :: acts' =>
      match perform a m with
      | Some m' => perform_all acts' m'
      | None => None
      end
  end.

Definition power_on : Machine := MkMachine boot [].

Inductive reachable : Machine -> Prop :=
| reachable_power_on : reachable power_on
| reachable_perform m a m' :
    reachable m -> perform a m = Some m' -> reachable m'.

(** The machine after a list of actions from power-on. *)
Definition after (acts : list Action) : Machine :=
  default power_on (perform_all acts power_on).

(** *** One call at a time on the machine

    A call is started and every answer delivered as soon as it is asked
    for. *)

(** The answer the network gives to a waiting call. *)
Definition answer (net : Network) (p : Pending) (w : World) : Response :=
  match p with
  | AtInitIssuer | AtAcquireIssuer => FromIssuer (issuer net (trace w))
  | AtInitialize => Tick
  | AtGraph => FromGraph (graph net (trace w))
  end.

Fixpoint run_task (net : Network) (fuel : nat) (op : Op) (w : World) (t : Task)
  : World * Task :=
  match fuel, t with
  | S fuel', Suspended p =>
      match resume op p (answer net p w) w with
      | Some (w', t') => run_task net fuel' op w' t'
      | None => (w, t)
      end
  | _, _ => (w, t)
  end.

(** No call waits more than four times. *)
Definition run (net : Network) (op : Op) (w : World) : World * Task :=
  let (w', t) := start op w in run_task net 4 op w' t.

End Graph.

Import Graph.

(** * Start-up (index.ts) *)

Module Index.

(** [pieces.join(sep)] for a separator of any length. *)
Fixpoint join_with (sep : jsstring) (pieces : list jsstring) : jsstring :=
  match pieces with
  | [] => []
  | [piece] => piece
  | piece :: rest => piece ++ sep ++ join_with sep rest
  end.

(** Line 14. *)
Definition required : list string :=
  ["AZURE_TENANT_ID"; "AZURE_CLIENT_ID"; "AZURE_CLIENT_SECRET"].

(** [validateEnv] returns, or ends the process with [process.exit]. *)
Inductive Outcome : Type :=
| Returns
| Exits (code : N).

(** [validateEnv] (lines 10-21): what it writes with [console.error],
    first line first, and how it ends. *)
Definition validateEnv (e : gmap string jsstring) : list jsstring * Outcome :=
  match truthy (e !! "AUTH_TOKEN") with                         (* 12 *)
  | Some _ => ([], Returns)
  | None =>
      let missing := filter (fun key => truthy (e !! key) = None) required in
      if (0 <? length missing)%nat then                         (* 16 *)
        ([js "Missing required environment variables: " ++
            join_with (js ", ") (map js missing);
          js "Set these in your environment or .env file."],
         Exits 1)
      else ([], Returns)
  end.

End Index.

Import Index.

(** * The tools (tools/teams.ts)

    Line numbers count from the first line of tools/users.ts, which
    tools/teams.ts follows. *)

Module Tools.

(** *** Strings *)

(** The code units [trim] removes: the white space and the line
    terminators of ECMAScript. *)
Definition is_white_space (c : N) : bool :=
  (c =? 9) || (c =? 10) || (c =? 11) || (c =? 12) || (c =? 13) || (c =? 32) ||
  (c =? 160) || (c =? 5760) || ((8192 <=? c) && (c <=? 8202)) ||
  (c =? 8232) || (c =? 8233) || (c =? 8239) || (c =? 8287) || (c =? 12288) ||
  (c =? 65279).

Fixpoint trimStart (s : jsstring) : jsstring :=
  match s with
  | c :: r => if is_white_space c then trimStart r else s
  | [] => []
  end.

Definition trimEnd (s : jsstring) : jsstring := rev (trimStart (rev s)).

Definition trim (s : jsstring) : jsstring := trimEnd (trimStart s).

(** [s.replace(/\\\\/g, "\\")]: the pattern is two backslashes, the
    replacement one; the matches are found from left to right and do not
    overlap. *)
Fixpoint replace_backslash_pairs (s : jsstring) : jsstring :=
  match s with
  | [] => []
  | c :: r =>
      match r with
      | d :: r' =>
          if (c =? 92) && (d =? 92) then 92 :: replace_backslash_pairs r'
          else c :: replace_backslash_pairs r
      | [] => [c]
      end
  end.

(** *** The Graph client

    A request made through a client: the client asks its provider for a
    token, then sends the request with it; the request resolves with a
    value ([None] is [undefined]) or rejects. *)

(** What a [catch] clause receives: an [Error], or something else. *)
Inductive Thrown : Type :=
| AnError (e : JsError)
| NotAnError.

Inductive Method : Type := GET | POST.

Record Request : Type := MkRequest {
  method : Method;
  path : jsstring;
  bearer : jsstring;
  body : option JSON
}.

Inductive Answer : Type :=
| Resolves (value : option JSON)
| Rejects (error : Thrown).

(** Graph answers each request as a function of all requests so far (the
    one to answer first); [provider_failed] is what the client throws
    when its token provider has thrown. *)
Record GraphApi : Type := MkGraphApi {
  respond : list Request -> Answer;
  provider_failed : JsError -> Thrown
}.

(** The service, and the requests the tools have sent, most recent
    first. *)
Record Session : Type := MkSession {
  service : World;
  sent : list Request
}.

Definition api_call (net : Network) (api : GraphApi) (client : Client)
    (m : Method) (endpoint : jsstring) (content : option JSON) (s : Session)
  : Session * Answer :=
  match getAccessToken net client (service s) with
  | (w, Throw e) => (MkSession w (sent s), Rejects (provider_failed api e))
  | (w, Normal token) =>
      let requests := MkRequest m endpoint token content :: sent s in
      (MkSession w requests, respond api requests)
  end.

(** The result of a tool: [{content: [{type: "text", text}], isError}],
    an absent [isError] being [false]. *)
Record ToolResult : Type := MkResult {
  text : jsstring;
  isError : bool
}.

(** *** delete_channel_message (lines 1214-1248) *)

Definition softDelete_endpoint (teamId channelId messageId : jsstring)
    (replyId : option jsstring) : jsstring :=
  match truthy replyId with
  | Some replyId =>
      js "/teams/" ++ teamId ++ js "/channels/" ++ channelId ++
      js "/messages/" ++ messageId ++ js "/replies/" ++ replyId ++
      js "/softDelete"
  | None =>
      js "/teams/" ++ teamId ++ js "/channels/" ++ channelId ++
      js "/messages/" ++ messageId ++ js "/softDelete"
  end.

(** The text of the [catch] clause; its first code unit is the cross
    mark U+274C. *)
Definition delete_failed (replyId : option jsstring) (error : Thrown)
  : ToolResult :=
  let errorMessage :=
    match error with
    | AnError e => message e
    | NotAnError => js "Unknown error occurred"
    end in
  MkResult
    (10060 :: js " Failed to delete " ++
     match truthy replyId with
     | Some _ => js "reply"
     | None => js "message"
     end ++
     js ": " ++ errorMessage)
    true.

(** The text returned after the request; its first code unit is the
    check mark U+2705. *)
Definition delete_succeeded (messageId : jsstring) (replyId : option jsstring)
  : ToolResult :=
  MkResult
    (9989 :: js " " ++
     match truthy replyId with
     | Some _ => js "Reply"
     | None => js "Message"
     end ++
     js " deleted successfully." ++
     match truthy replyId with
     | Some replyId => js " Reply ID: " ++ replyId
     | None => js " Message ID: " ++ messageId
     end)
    false.

Definition delete_channel_message (net : Network) (api : GraphApi)
    (teamId channelId messageId : jsstring) (replyId : option jsstring)
    (s : Session) : Session * ToolResult :=
  match getClient net (service s) with
  | (w, Throw e) => (MkSession w (sent s), delete_failed replyId (AnError e))
  | (w, Normal client) =>
      let endpoint := softDelete_endpoint teamId channelId messageId replyId in
      match api_call net api client POST endpoint (Some (JObject []))
              (MkSession w (sent s)) with
      | (s, Rejects error) => (s, delete_failed replyId error)
      | (s, Resolves _) => (s, delete_succeeded messageId replyId)
      end
  end.

(** *** list_teams with the TEAM_IDS filter (lines 153-174) *)

(** Lines 156-159: [teamIdsEnv.split(",").map((id) => id.trim()).filter(Boolean)] *)
Definition teamIds (teamIdsEnv : jsstring) : list jsstring :=
  filter (fun id => id <> []) (map trim (split 44 teamIdsEnv)).

Record TeamSummary : Type := MkTeamSummary {
  id : option JSON;
  displayName : option JSON;
  description : option JSON;
  isArchived : option JSON
}.

(** Lines 165-170.  Reading a property of [undefined] or [null] throws
    ([None]); a value that is not an object has none of the four
    properties. *)
Definition summary (team : option JSON) : option TeamSummary :=
  match team with
  | None | Some JNull => None
  | Some (JObject members) =>
      Some (MkTeamSummary (own_property members (js "id"))
              (own_property members (js "displayName"))
              (own_property members (js "description"))
              (own_property members (js "isArchived")))
  | Some _ => Some (MkTeamSummary None None None None)
  end.

Definition fetch_failed (teamId : jsstring) (s : Session) : Session :=
  MkSession
    (note (ConsoleError (js "Failed to fetch team " ++ teamId ++ js ":"))
       (service s))
    (sent s).

(** Lines 160-174: the loop over the ids, [teamList] being the teams
    fetched so far. *)
Fixpoint fetch_teams (net : Network) (api : GraphApi) (client : Client)
    (teamIds : list jsstring) (teamList : list TeamSummary) (s : Session)
  : Session * list TeamSummary :=
  match teamIds with
  | [] => (s, teamList)
  | teamId :: rest =>
      match api_call net api client GET (js "/teams/" ++ teamId) None s with
      | (s, Resolves team) =>
          match summary team with
          | Some t => fetch_teams net api client rest (teamList ++ [t]) s
          | None => fetch_teams net api client rest teamList (fetch_failed teamId s)
          end
      | (s, Rejects _) =>
          fetch_teams net api client rest teamList (fetch_failed teamId s)
      end
  end.

(** *** download_message_hosted_content: the path to save to
    (lines 1118-1123) *)

Definition normalizedPath (savePath : jsstring) : jsstring :=
  replace_backslash_pairs savePath.

Definition isUncPath (savePath : jsstring) : bool :=
  starts_with [92; 92] (normalizedPath savePath) ||
  starts_with [47; 47] (normalizedPath savePath).

End Tools.

Import Tools.

(** * Vocabulary of the properties *)

(** ** Tokens *)

(** [token] is the three dot-free segments [a], [p], [b] with a dot
    between them. *)
Definition three_segments (token a p b : jsstring) : Prop :=
  token = a ++ 46 :: p ++ 46 :: b /\ (46 ∉ a) /\ (46 ∉ p) /\ (46 ∉ b).

(** The ['aud'] member of a JSON object (the last one when the text
    repeats the name). *)
Inductive audience_claim : JSON -> JSON -> Prop :=
| audience_claim_member before after aud :
    js "aud" ∉ map fst after ->
    audience_claim (JObject (before ++ (js "aud", aud) :: after)) aud.

(** An audience that is the Graph audience or an array containing it. *)
Definition names_graph (aud : JSON) : Prop :=
  aud = JString GRAPH_AUDIENCE \/
  exists items, aud = JArray items /\ JString GRAPH_AUDIENCE ∈ items.

(** A token of three segments whose middle one base64-decodes to JSON
    with an audience claim naming Graph. *)
Definition graph_token (token : jsstring) : Prop :=
  exists a p b decoded payload aud,
    three_segments token a p b /\
    atob p = Some decoded /\
    JSON_parse decoded = Some payload /\
    audience_claim payload aud /\
    names_graph aud.

(** ** Observations *)

(** The events of the credential flow: reading one of the three
    credential variables, asking the issuer for a token. *)
Definition consults_credentials (e : Event) : bool :=
  match e with
  | EnvRead name =>
      bool_decide (name ∈ ["AZURE_TENANT_ID"; "AZURE_CLIENT_ID";
                           "AZURE_CLIENT_SECRET"])
  | TokenRequest _ _ => true
  | _ => false
  end.

Definition credential_free (events : list Event) : Prop :=
  forallb (fun e => negb (consults_credentials e)) events = true.

(** The message of an error mentions each of the three variables. *)
Definition names_the_variables (e : JsError) : Prop :=
  str_includes (message e) (js "AZURE_TENANT_ID") = true /\
  str_includes (message e) (js "AZURE_CLIENT_ID") = true /\
  str_includes (message e) (js "AZURE_CLIENT_SECRET") = true.

Inductive CredentialMode : Type := StaticToken | ClientCredential.

(** The mode a client was built in shows in its token provider. *)
Definition mode_of (c : Client) : CredentialMode :=
  match authProvider c with
  | FixedToken _ => StaticToken
  | ViaAcquireToken => ClientCredential
  end.

(** The mode of the client installed, if any. *)
Definition active_mode (w : World) : option CredentialMode :=
  mode_of <$> client (this w).

(** The branch the body of [initializeClient] takes (line 31). *)
Definition selected_mode (e : gmap string jsstring) : CredentialMode :=
  match truthy (e !! "AUTH_TOKEN") with
  | Some _ => StaticToken
  | None => ClientCredential
  end.

(** ** The outcomes of initializeClient *)

(** The reads of the credential flow, after the read of [AUTH_TOKEN]. *)
Definition credential_reads : list Event :=
  [EnvRead "AZURE_CLIENT_SECRET"; EnvRead "AZURE_CLIENT_ID";
   EnvRead "AZURE_TENANT_ID"; EnvRead "AUTH_TOKEN"].

(** The five ways through the synchronous part of [initializeClient]. *)
Inductive init_begin_outcome (w : World) : World * bool -> Prop :=
| init_already :
    isInitialized (this w) = true ->
    init_begin_outcome w (w, false)
| init_static token :
    isInitialized (this w) = false ->
    env w !! "AUTH_TOKEN" = Some token -> token <> [] ->
    validateToken token = Some token ->
    let c := MkClient (allocated w) (FixedToken token) in
    init_begin_outcome w
      (MkWorld (MkService (Some c) true (msalApp (this w))) (env w)
         (S (allocated w))
         (ClientCreated c :: EnvRead "AUTH_TOKEN" :: trace w), false)
| init_invalid token text :
    isInitialized (this w) = false ->
    env w !! "AUTH_TOKEN" = Some token -> token <> [] ->
    validateToken token = None ->
    validateToken_console token = Some text ->
    init_begin_outcome w
      (MkWorld (this w) (env w) (allocated w)
         (ConsoleError text :: EnvRead "AUTH_TOKEN" :: trace w), false)
| init_missing :
    isInitialized (this w) = false ->
    truthy (env w !! "AUTH_TOKEN") = None ->
    truthy (env w !! "AZURE_TENANT_ID") = None \/
    truthy (env w !! "AZURE_CLIENT_ID") = None \/
    truthy (env w !! "AZURE_CLIENT_SECRET") = None ->
    init_begin_outcome w
      (MkWorld (this w) (env w) (allocated w)
         (ConsoleError missing_variables :: credential_reads ++ trace w), false)
| init_requested tenant id secret :
    isInitialized (this w) = false ->
    truthy (env w !! "AUTH_TOKEN") = None ->
    truthy (env w !! "AZURE_TENANT_ID") = Some tenant ->
    truthy (env w !! "AZURE_CLIENT_ID") = Some id ->
    truthy (env w !! "AZURE_CLIENT_SECRET") = Some secret ->
    let app :=
      Msal.Build id secret (js "https://login.microsoftonline.com/" ++ tenant) in
    init_begin_outcome w
      (MkWorld (MkService (client (this w)) false (Some app)) (env w)
         (allocated w)
         (TokenRequest app [CLIENT_CREDENTIAL_SCOPE] :: credential_reads ++ trace w),
       true).

(** ** Invariants *)

(** The fields of the service agree: the flag is set exactly when a
    client is installed, and a client that asks [acquireToken] for its
    tokens has an MSAL application to ask. *)
Definition consistent (s : GraphService) : Prop :=
  (isInitialized s = true <-> client s <> None) /\
  (forall c, client s = Some c -> authProvider c = ViaAcquireToken ->
             msalApp s <> None).

(** Some call is inside [initializeClient], waiting for the issuer. *)
Definition init_in_flight (cs : list (Op * Task)) : Prop :=
  exists i op, cs !! i = Some (op, Suspended AtInitIssuer).

Definition waits_in_init (call : Op * Task) : bool :=
  match snd call with
  | Suspended AtInitIssuer => true
  | _ => false
  end.

Definition machine_ok (m : Machine) : Prop :=
  consistent (this (world m)) /\
  (init_in_flight (calls m) -> msalApp (this (world m)) <> None).

(** Initialisation has succeeded and no call is still inside
    [initializeClient]. *)
Definition init_settled (m : Machine) : Prop :=
  isInitialized (this (world m)) = true /\ ~ init_in_flight (calls m).

(** From call number [n] on, a [getClient] call waits for its settled
    [initializeClient] or has returned [c]. *)
Definition later_calls_return (c : Client) (n : nat) (cs : list (Op * Task))
  : Prop :=
  forall i t, (n <= i)%nat -> cs !! i = Some (GetClient, t) ->
              t = Suspended AtInitialize \/ t = Settled (ClientResult c).

Definition stable (c : Client) (a n : nat) (m : Machine) : Prop :=
  init_settled m /\
  client (this (world m)) = Some c /\
  allocated (world m) = a /\
  later_calls_return c n (calls m).

(** From call number [n] on, no [getClient] call has been rejected. *)
Definition later_calls_succeed (n : nat) (cs : list (Op * Task)) : Prop :=
  forall i r, (n <= i)%nat -> cs !! i = Some (GetClient, Settled r) ->
              exists c, r = ClientResult c.

(** ** What the calls settle with *)

(** [getAuthStatus] settles with a status; [getClient] with a client or
    with the error of lines 128-130. *)
Definition settles_as_written (call : Op * Task) : Prop :=
  match call with
  | (GetAuthStatus, Settled r) => exists s, r = StatusResult s
  | (GetClient, Settled r) =>
      (exists c, r = ClientResult c) \/ r = Rejected not_authenticated
  | _ => True
  end.

(** ** The requests *)

(** The number of requests sent to Graph so far. *)
Fixpoint graph_gets (events : list Event) : nat :=
  match events with
  | [] => 0
  | GraphGet _ _ :: rest => S (graph_gets rest)
  | _ :: rest => graph_gets rest
  end.

(** The application was constructed (lines 56-62) from three non-empty
    values. *)
Definition configured (app : ConfidentialClientApplication) : Prop :=
  Msal.clientId app <> [] /\
  Msal.clientSecret app <> [] /\
  exists tenantId,
    tenantId <> [] /\
    Msal.authority app = js "https://login.microsoftonline.com/" ++ tenantId.

(** A token request is made by a configured application for the one
    scope. *)
Definition well_formed (e : Event) : Prop :=
  match e with
  | TokenRequest app scopes =>
      configured app /\ scopes = [CLIENT_CREDENTIAL_SCOPE]
  | _ => True
  end.

Definition requests_ok (w : World) : Prop :=
  Forall well_formed (trace w) /\
  forall app, msalApp (this w) = Some app -> configured app.

(** The token a static-token client holds has passed [validateToken]. *)
Definition static_token_ok (s : GraphService) : Prop :=
  forall c token,
    client s = Some c -> authProvider c = FixedToken token ->
    validateToken token = Some token.

(** ** The ids of the TEAM_IDS filter *)

(** Neither the first nor the last code unit is white space. *)
Definition trimmed (s : jsstring) : Prop :=
  (forall c, head s = Some c -> is_white_space c = false) /\
  (forall c, last s = Some c -> is_white_space c = false).

(** A non-empty id without a comma and without white space around it. *)
Definition plain_id (id : jsstring) : Prop :=
  id <> [] /\ (44 ∉ id) /\ trimmed id.

(** ** Data of the scenarios *)

(** A text written with an apostrophe where JSON has the quotation
    mark. *)
Definition json_text (s : string) : jsstring :=
  map (fun c => if c =? 39 then 34 else c) (js s).

Definition credentials : gmap string jsstring :=
  {[ "AZURE_TENANT_ID" := js "t"; "AZURE_CLIENT_ID" := js "c";
     "AZURE_CLIENT_SECRET" := js "s" ]}.

(** [header.] ++ btoa of the JSON text with the single member
    aud = https://graph.microsoft.com ++ [.signature] *)
Definition graph_jwt : jsstring :=
  js "header.eyJhdWQiOiJodHRwczovL2dyYXBoLm1pY3Jvc29mdC5jb20ifQ==.signature".

Definition issued (token : string) : IssuerOutcome :=
  IssuerResolves (Some (MkAuthResult (js token))).

(** An issuer that always issues, a Graph that always answers. *)
Definition obliging : Network :=
  MkNetwork (fun _ => issued "mock-access-token") (fun _ => true).

(** The number of token requests sent so far. *)
Fixpoint requests (events : list Event) : nat :=
  match events with
  | [] => 0
  | TokenRequest _ _ :: rest => S (requests rest)
  | _ :: rest => requests rest
  end.

(** An issuer that issues once and rejects every later request. *)
Definition revoked : Network :=
  MkNetwork (fun events => if Nat.leb (requests events) 1
                           then issued "mock-access-token"
                           else IssuerRejects (MkError (js "invalid_client")))
            (fun _ => true).

(** An issuer that numbers its tokens. *)
Definition counting : Network :=
  MkNetwork (fun events => IssuerResolves (Some (MkAuthResult
                             (js "token-" ++ [48 + N.of_nat (requests events)]))))
            (fun _ => true).

(** A Graph that refuses every request. *)
Definition unreachable : Network :=
  MkNetwork (fun _ => issued "mock-access-token") (fun _ => false).

Definition msal_t : ConfidentialClientApplication :=
  Msal.Build (js "c") (js "s") (js "https://login.microsoftonline.com/t").

Definition request_t : Event := TokenRequest msal_t [CLIENT_CREDENTIAL_SCOPE].

(** Client credentials in the environment, one [getClient] call run to
    its end: the service is initialised in client-credential mode. *)
Definition start_up : list Action :=
  [SetEnv credentials; Call GetClient;
   Deliver 0 (FromIssuer (issued "mock-access-token")); Deliver 0 Tick].

Definition client0 : Client := MkClient 0 ViaAcquireToken.
Definition client1 : Client := MkClient 1 ViaAcquireToken.

Definition invalid_token_world : World :=
  set_env (<["AUTH_TOKEN" := js "invalid-token"]> credentials) boot.

(** [AUTH_TOKEN] set to the empty string: the test of line 31 fails and
    the body goes on to the credential flow. *)
Definition empty_token_world : World :=
  set_env (<["AUTH_TOKEN" := []]> credentials) boot.

(** Two [getClient] calls made before the issuer has answered either:
    both run the body, each builds a client when its answer arrives.
    Calls 2 and 3 are both made after initialisation has succeeded. *)
Definition overlapping_calls_1 : list Action :=
  [SetEnv credentials; Call GetClient; Call GetClient;
   Deliver 0 (FromIssuer (issued "mock-access-token")); Deliver 0 Tick;
   Call GetClient; Deliver 2 Tick].

Definition overlapping_calls_2 : list Action :=
  [Deliver 1 (FromIssuer (issued "mock-access-token")); Deliver 1 Tick;
   Call GetClient; Deliver 3 Tick].

(** The service was initialised with tenant [t] and client [c]; by the
    time of the call the environment names [t2] and [c2]. *)
Definition renamed : gmap string jsstring :=
  {[ "AZURE_TENANT_ID" := js "t2"; "AZURE_CLIENT_ID" := js "c2" ]}.

(** A first attempt with a malformed static token, then credentials in
    the environment: the second attempt succeeds in the other mode. *)
Definition malformed : gmap string jsstring :=
  {[ "AUTH_TOKEN" := js "invalid-token" ]}.

Definition second_attempt : World :=
  set_env credentials (fst (getClient obliging (set_env malformed boot))).

(** A call waits for the issuer while a static token appears in the
    environment and a second call installs a static-token client; then
    the issuer answers the first call. *)
Definition static_then_late_answer_1 : list Action :=
  [SetEnv credentials; Call GetClient;
   SetEnv (<["AUTH_TOKEN" := graph_jwt]> credentials); Call GetClient;
   Deliver 1 Tick].

Definition static_then_late_answer_2 : list Action :=
  [Deliver 0 (FromIssuer (issued "mock-access-token")); Deliver 0 Tick].

(** The base64 form of a payload with the members
    aud = https://graph.microsoft.com and exp = 1, and that payload. *)
Definition expired_payload : jsstring :=
  js "eyJhdWQiOiJodHRwczovL2dyYXBoLm1pY3Jvc29mdC5jb20iLCJleHAiOjF9".

Definition expired_text : jsstring :=
  json_text "{'aud':'https://graph.microsoft.com','exp':1}".

(** After start-up: the environment is emptied and [getClient] called. *)
Definition later_call : list Action :=
  [SetEnv ∅; Call GetClient; Deliver 1 Tick].

(** After start-up: a valid static token appears in the environment and
    [getClient] is called. *)
Definition static_token_appears : list Action :=
  [SetEnv (<["AUTH_TOKEN" := graph_jwt]> credentials); Call GetClient;
   Deliver 1 Tick].

(** An issuer that rejects every request. *)
Definition refusing : Network :=
  MkNetwork (fun _ => IssuerRejects (MkError (js "invalid_client")))
            (fun _ => true).

(** An issuer that answers [null] to the first request and issues from
    the second on. *)
Definition hesitant : Network :=
  MkNetwork (fun events => if Nat.leb (requests events) 1
                           then IssuerResolves None
                           else issued "mock-access-token")
            (fun _ => true).

(** Credentials in the environment and an issuer that rejects: a
    [getAuthStatus] call run to its end. *)
Definition rejected_start_up : list Action :=
  [SetEnv credentials; Call GetAuthStatus;
   Deliver 0 (FromIssuer (IssuerRejects (MkError (js "invalid_client"))));
   Deliver 0 Tick].

(** The token of the tests in [AUTH_TOKEN] and nothing else. *)
Definition static_only : gmap string jsstring :=
  {[ "AUTH_TOKEN" := graph_jwt ]}.

(** A valid static token in the environment, one [getClient] call run
    to its end; then the token is taken out of the environment. *)
Definition static_start_up : list Action :=
  [SetEnv static_only; Call GetClient; Deliver 0 Tick; SetEnv ∅].

Definition static_client : Client := MkClient 0 (FixedToken graph_jwt).

(** [graph_jwt] with the padding of its middle segment left out. *)
Definition unpadded_payload : jsstring :=
  js "eyJhdWQiOiJodHRwczovL2dyYXBoLm1pY3Jvc29mdC5jb20ifQ".

(** A Graph that resolves every request of the tools with [undefined],
    and one that rejects every request. *)
Definition compliant : GraphApi := MkGraphApi (fun _ => Resolves None) AnError.

Definition forbidden : GraphApi :=
  MkGraphApi (fun _ => Rejects (AnError (MkError (js "Forbidden")))) AnError.

(** A Graph that knows one team, [team-1]. *)
Definition one_team : GraphApi :=
  MkGraphApi
    (fun requests =>
       match requests with
       | r :: _ =>
           if bool_decide (path r = js "/teams/team-1")
           then Resolves (Some (JObject [(js "id", JString (js "team-1"));
                                         (js "displayName", JString (js "Team One"))]))
           else Rejects (AnError (MkError (js "Not Found")))
       | [] => Resolves None
       end)
    AnError.

(** A session right after start-up of the process. *)
Definition new_session (e : gmap string jsstring) : Session :=
  MkSession (set_env e boot) [].

(** * Properties *)

(** Split a conjunction of closed facts and evaluate each. *)
Ltac conjuncts := repeat match goal with |- _ /\ _ => split end.
Ltac evaluate := vm_compute; first [reflexivity | discriminate].

(** ** Token validation *)

Section Split.

Variable sep : N.

Lemma split_nonempty s : split sep s <> [].
Proof.
  destruct s as [|c r]; simpl; [discriminate|].
  destruct (c =? sep); [discriminate|].
  destruct (split sep r); discriminate.
Qed.

Lemma split_free s : sep ∉ s -> split sep s = [s].
Proof.
  induction s as [|c r IH]; intros Hs; [reflexivity|].
  simpl. apply not_elem_of_cons in Hs as [Hc Hr].
  destruct (N.eqb_spec c sep) as [->|_]; [congruence|].
  rewrite (IH Hr). reflexivity.
Qed.

Lemma split_at a r : sep ∉ a -> split sep (a ++ sep :: r) = a :: split sep r.
Proof.
  induction a as [|c a IH]; intros Ha; simpl.
  - rewrite N.eqb_refl. reflexivity.
  - apply not_elem_of_cons in Ha as [Hc Ha].
    destruct (N.eqb_spec c sep) as [->|_]; [congruence|].
    rewrite (IH Ha). reflexivity.
Qed.

Lemma split_pieces s : Forall (fun piece => sep ∉ piece) (split sep s).
Proof.
  induction s as [|c r IH]; simpl.
  - constructor; [apply not_elem_of_nil | constructor].
  - destruct (N.eqb_spec c sep) as [->|Hc].
    + constructor; [apply not_elem_of_nil | exact IH].
    + destruct (split sep r) as [|piece pieces].
      * constructor; [|constructor].
        intros H. apply list_elem_of_singleton in H. congruence.
      * inversion IH; subst. constructor; [|assumption].
        intros H. apply elem_of_cons in H as [H|H]; [congruence | contradiction].
Qed.

Lemma join_split s : join sep (split sep s) = s.
Proof.
  induction s as [|c r IH]; [reflexivity|].
  simpl. destruct (N.eqb_spec c sep) as [->|Hc].
  - pose proof (split_nonempty r) as Hne.
    simpl. destruct (split sep r) as [|p ps]; [congruence|].
    simpl in *. rewrite IH. reflexivity.
  - destruct (split sep r) as [|p ps] eqn:E.
    + exfalso. exact (split_nonempty r E).
    + destruct ps as [|q qs]; simpl in *; rewrite <- IH; reflexivity.
Qed.

(** A string splits into exactly three pieces when it is three
    separator-free pieces with a separator between them. *)
Lemma split_three s a p b :
  split sep s = [a; p; b] <->
  s = a ++ sep :: p ++ sep :: b /\ (sep ∉ a) /\ (sep ∉ p) /\ (sep ∉ b).
Proof.
  split.
  - intros E. pose proof (split_pieces s) as Hp. pose proof (join_split s) as Hj.
    rewrite E in Hp, Hj. simpl in Hj.
    inversion Hp as [|? ? Ha Hp1]; subst. inversion Hp1 as [|? ? Hp' Hp2]; subst.
    inversion Hp2; subst. auto.
  - intros (-> & Ha & Hp & Hb).
    rewrite (split_at a _ Ha), (split_at p _ Hp), (split_free b Hb). reflexivity.
Qed.

End Split.

Lemma own_property_none members name :
  own_property members name = None <-> name ∉ map fst members.
Proof.
  induction members as [|[k x] rest IH]; simpl.
  - split; [intros _; apply not_elem_of_nil | reflexivity].
  - rewrite not_elem_of_cons, <- IH.
    destruct (own_property rest name); [intuition discriminate|].
    destruct (decide (k = name)); intuition (discriminate || congruence).
Qed.

Lemma own_property_app before after name :
  own_property (before ++ after) name =
  match own_property after name with
  | Some v => Some v
  | None => own_property before name
  end.
Proof.
  induction before as [|[k x] before IH]; simpl.
  - destruct (own_property after name); reflexivity.
  - rewrite IH. destruct (own_property after name); reflexivity.
Qed.

(** [own_property] finds the last member of that name. *)
Lemma own_property_last members name v :
  own_property members name = Some v <->
  exists before after,
    members = before ++ (name, v) :: after /\ name ∉ map fst after.
Proof.
  split.
  - induction members as [|[k x] rest IH]; simpl; [discriminate|].
    destruct (own_property rest name) as [later|] eqn:E.
    + intros [= <-]. destruct (IH eq_refl) as (b & a & -> & Ha).
      exists ((k, x) :: b), a. auto.
    + destruct (decide (k = name)) as [->|]; [|discriminate].
      intros [= <-]. exists [], rest. split; [reflexivity|].
      apply own_property_none. exact E.
  - intros (b & a & -> & Ha). rewrite own_property_app. simpl.
    apply own_property_none in Ha. rewrite Ha.
    destruct (decide (name = name)); congruence.
Qed.

Lemma includes_elem arr s :
  includes arr s = true <-> Some (JString s) ∈ arr.
Proof.
  unfold includes. rewrite existsb_exists. split.
  - intros (x & Hin & Hx). apply list_elem_of_In in Hin.
    destruct x as [[]|]; try discriminate.
    apply bool_decide_eq_true in Hx. subst. exact Hin.
  - intros Hin. exists (Some (JString s)). split.
    + apply list_elem_of_In. exact Hin.
    + apply bool_decide_eq_true. reflexivity.
Qed.

Lemma includes_audiences aud :
  includes (audiences aud) GRAPH_AUDIENCE = true <->
  exists v, aud = Some v /\ names_graph v.
Proof.
  rewrite includes_elem. unfold names_graph. split.
  - destruct aud as [v|]; simpl.
    + destruct v; simpl; intros H;
        try (apply list_elem_of_singleton in H; inversion H; subst; eauto; fail).
      apply list_elem_of_fmap in H as (y & Hy & Hin).
      injection Hy as <-. eauto 6.
    + intros H. apply list_elem_of_singleton in H. discriminate.
  - intros (v & -> & [-> | (items & -> & Hin)]); simpl.
    + apply list_elem_of_singleton. reflexivity.
    + apply list_elem_of_fmap. eauto.
Qed.

Lemma payload_aud_claim payload aud :
  payload_aud payload = Some (Some aud) <-> audience_claim payload aud.
Proof.
  split.
  - destruct payload; simpl; try discriminate.
    intros [= H]. apply own_property_last in H as (b & a & -> & Ha).
    constructor. exact Ha.
  - intros [b a v Ha]. simpl. f_equal.
    apply own_property_last. eauto.
Qed.

(** The token passes the checks of [validateToken] exactly when it is a
    graph token. *)
Lemma validation_valid token :
  validation token = Valid <-> graph_token token.
Proof.
  unfold validation, graph_token. split.
  - destruct (split 46 token) as [|a [|p [|b [|]]]] eqn:E; simpl; try discriminate.
    destruct (atob p) as [decoded|] eqn:Ed; [|discriminate].
    destruct (JSON_parse decoded) as [payload|] eqn:Ep; [|discriminate].
    destruct (payload_aud payload) as [aud|] eqn:Ea; [|discriminate].
    destruct (includes (audiences aud) GRAPH_AUDIENCE) eqn:Ei; [|discriminate].
    intros _. apply includes_audiences in Ei as (v & -> & Hv).
    exists a, p, b, decoded, payload, v.
    split; [apply split_three; exact E|].
    repeat split; try assumption. apply payload_aud_claim. exact Ea.
  - intros (a & p & b & decoded & payload & aud & Hs & Hd & Hp & Ha & Hg).
    apply split_three in Hs. rewrite Hs. simpl. rewrite Hd, Hp.
    apply payload_aud_claim in Ha. rewrite Ha.
    assert (Hi : includes (audiences (Some aud)) GRAPH_AUDIENCE = true)
      by (apply includes_audiences; eauto).
    rewrite Hi. reflexivity.
Qed.

Lemma validateToken_valid token :
  graph_token token -> validateToken token = Some token.
Proof.
  intros H. apply validation_valid in H. unfold validateToken. rewrite H.
  reflexivity.
Qed.

(** C1.  [validateToken] returns its argument unchanged exactly when the
    token has three dot-separated segments whose middle one
    base64-decodes to JSON with an ['aud'] claim that is the Graph
    audience or an array containing it; on every other string it
    returns [undefined]. *)
Theorem validateToken_graph_token (token : jsstring) :
  (graph_token token <-> validateToken token = Some token) /\
  (~ graph_token token <-> validateToken token = None).
Proof.
  rewrite <- validation_valid. unfold validateToken.
  destruct (validation token); split; split; intros H;
    try reflexivity; try discriminate; try congruence.
Qed.

(** The tokens of the test suite, and a few more. *)
Example validate_scalar_audience :
  validateToken (js "header.eyJhdWQiOiJodHRwczovL2dyYXBoLm1pY3Jvc29mdC5jb20ifQ==.signature")
  = Some (js "header.eyJhdWQiOiJodHRwczovL2dyYXBoLm1pY3Jvc29mdC5jb20ifQ==.signature").
Proof. vm_compute. reflexivity. Qed.

Example validate_array_audience :
  validateToken (js "header.eyJhdWQiOlsiaHR0cHM6Ly9ncmFwaC5taWNyb3NvZnQuY29tIiwiaHR0cHM6Ly9vdGhlci5jb20iXX0=.signature")
  <> None.
Proof. vm_compute. discriminate. Qed.

Example validate_rejections :
  map validation
    [ js "invalid-token";
      js "header.eyJhdWQiOiJodHRwczovL290aGVyLXNlcnZpY2UuY29tIn0=.signature";
      js "header.eyJleHAiOjF9.signature";
      js "header.bnVsbA==.signature";
      js "header.Imh0dHBzOi8vZ3JhcGgubWljcm9zb2Z0LmNvbSI=.signature";
      js "header.WyJodHRwczovL2dyYXBoLm1pY3Jvc29mdC5jb20iXQ==.signature";
      js "header.eyJhdWQiOiJodHRwczovL2dyYXBoLm1pY3Jvc29mdC5jb20iLCJhdWQiOiJ4In0=.signature";
      js "header.eyJhdWQiOiJodHRwczovL2dyYXBoLm1pY3Jvc29mdC5jb20vIn0=.signature";
      js "header.eyJhdWQiOltbImh0dHBzOi8vZ3JhcGgubWljcm9zb2Z0LmNvbSJdXX0=.signature";
      js "header.eyJhdWQiOiJodHRwczovL2dyYXBoLm1pY3Jvc29mdC5jb20ifQ==.sig.extra";
      js "header.e-_.signature";
      [] ]
  = [ MissingClaims; NotGraphToken; NotGraphToken; ParseFailure; NotGraphToken;
      NotGraphToken; NotGraphToken; NotGraphToken; NotGraphToken; MissingClaims;
      ParseFailure; MissingClaims ].
Proof. vm_compute. reflexivity. Qed.

Example validate_escaped_audience :
  validation (js "h.eyJhdWQiOiJ4IiwiYXVkIjoiaHR0cHM6XC9cL2dyYXBoLm1pY3Jvc29mdC5jb20ifQ==.s") = Valid.
Proof. vm_compute. reflexivity. Qed.

(** ** What validateToken does not look at *)

Lemma sextets_alphabet data vs c :
  sextets data = Some vs -> c ∈ data -> base64_value c <> None.
Proof.
  revert vs. induction data as [|d data IH]; intros vs H Hin.
  - apply not_elem_of_nil in Hin. contradiction.
  - simpl in H. destruct (base64_value d) eqn:Ed; [|discriminate].
    destruct (sextets data) eqn:Es; [|discriminate].
    apply elem_of_cons in Hin as [->|Hin]; [congruence | eauto].
Qed.

Lemma strip_padding_keeps data c :
  c <> 61 -> c ∈ data -> c ∈ strip_padding data.
Proof.
  intros Hc Hin. unfold strip_padding.
  destruct (N.of_nat (length data) mod 4 =? 0); [|exact Hin].
  assert (Hrev : In c (rev data))
    by (apply (proj1 (in_rev data c)), list_elem_of_In; exact Hin).
  assert (Hr : forall l, In c l -> c ∈ rev l)
    by (intros l Hl; apply list_elem_of_In, (proj1 (in_rev l c)); exact Hl).
  destruct (rev data) as [|x rest]; [exact Hin|].
  destruct (N.eqb_spec x 61) as [->|_]; [|exact Hin].
  destruct Hrev as [Hx|Hrev]; [congruence|].
  destruct rest as [|y r]; [destruct Hrev|].
  destruct (N.eqb_spec y 61) as [->|_]; [|apply Hr; exact Hrev].
  destruct Hrev as [Hy|Hrev]; [congruence|]. apply Hr. exact Hrev.
Qed.

(** A segment that [atob] accepts contains no dot. *)
Lemma atob_no_dot p decoded : atob p = Some decoded -> 46 ∉ p.
Proof.
  unfold atob. intros H Hin.
  set (data := filter (fun c => is_ascii_whitespace c = false) p) in *.
  assert (Hd : 46 ∈ strip_padding data).
  { apply strip_padding_keeps; [discriminate|].
    apply list_elem_of_filter. split; [reflexivity | exact Hin]. }
  destruct (N.of_nat (length (strip_padding data)) mod 4 =? 1); [discriminate|].
  destruct (sextets (strip_padding data)) as [vs|] eqn:Es; [|discriminate].
  exact (sextets_alphabet _ _ _ Es Hd eq_refl).
Qed.

(** C9.  For every string [a.p.b] with dot-free [a] and [b] (empty or
    not) whose middle segment base64-decodes to JSON with an ['aud']
    claim naming Graph, [validateToken] returns the token: nothing else
    in the payload, and nothing in the first and last segment, is
    looked at.  In particular an ['exp'] member, whatever its value,
    makes no difference. *)
Theorem validateToken_checks_audience_only
    (a p b decoded : jsstring) (payload aud : JSON) :
  46 ∉ a -> 46 ∉ b ->
  atob p = Some decoded ->
  JSON_parse decoded = Some payload ->
  audience_claim payload aud ->
  names_graph aud ->
  validateToken (a ++ 46 :: p ++ 46 :: b) = Some (a ++ 46 :: p ++ 46 :: b) /\
  validateToken (46 :: p ++ [46]) = Some (46 :: p ++ [46]) /\
  (forall members exp,
     payload = JObject members ->
     audience_claim (JObject (members ++ [(js "exp", exp)])) aud /\
     audience_claim (JObject ((js "exp", exp) :: members)) aud).
Proof.
  intros Ha Hb Hd Hp Hc Hg. pose proof (atob_no_dot _ _ Hd) as Hdot.
  split; [|split].
  - apply validateToken_valid.
    exists a, p, b, decoded, payload, aud. unfold three_segments. auto 10.
  - apply validateToken_valid.
    exists [], p, [], decoded, payload, aud. unfold three_segments.
    split; [|auto]. repeat split; auto; apply not_elem_of_nil.
  - intros members exp ->. inversion Hc as [before after v Hafter E]. split.
    + replace ((before ++ (js "aud", aud) :: after) ++ [(js "exp", exp)])
        with (before ++ (js "aud", aud) :: (after ++ [(js "exp", exp)]))
        by (rewrite <- app_assoc; reflexivity).
      constructor. rewrite map_app. intros Hin.
      apply elem_of_app in Hin as [Hin|Hin]; [contradiction|].
      apply list_elem_of_singleton in Hin. vm_compute in Hin. discriminate.
    + change ((js "exp", exp) :: before ++ (js "aud", aud) :: after)
        with (((js "exp", exp) :: before) ++ (js "aud", aud) :: after).
      constructor. exact Hafter.
Qed.

(** ** The pieces of initializeClient *)

Lemma truthy_some v s : truthy v = Some s <-> v = Some s /\ s <> [].
Proof.
  destruct v as [[|c r]|]; simpl; split;
    try discriminate; try (intros [? ?]; congruence).
  intros [= <-]. split; [reflexivity | discriminate].
Qed.

Lemma validateToken_some token t : validateToken token = Some t -> t = token.
Proof. unfold validateToken. destruct (validation token); congruence. Qed.

Lemma validateToken_console_none token :
  validateToken token = None -> exists text, validateToken_console token = Some text.
Proof.
  unfold validateToken, validateToken_console.
  destruct (validation token); try discriminate; eauto.
Qed.

(** The synchronous part of [initializeClient] ends in one of the five
    outcomes. *)
Lemma initializeClient_begin_outcome w :
  init_begin_outcome w (initializeClient_begin w).
Proof.
  unfold initializeClient_begin.
  destruct (isInitialized (this w)) eqn:Hi; [constructor; exact Hi|].
  cbn [getenv note env this allocated trace].
  destruct (truthy (env w !! "AUTH_TOKEN")) as [token|] eqn:Ht.
  - apply truthy_some in Ht as [Ht Hne].
    destruct (validateToken token) as [t|] eqn:Hv.
    + pose proof (validateToken_some _ _ Hv) as ->.
      assert (Htt : truthy (Some token) = Some token)
        by (apply truthy_some; auto).
      rewrite Htt. exact (init_static w token Hi Ht Hne Hv).
    + cbn. destruct (validateToken_console_none _ Hv) as [text Hc].
      rewrite Hc. exact (init_invalid w token text Hi Ht Hne Hv Hc).
  - destruct (truthy (env w !! "AZURE_TENANT_ID")) as [tenant|] eqn:H1;
      [destruct (truthy (env w !! "AZURE_CLIENT_ID")) as [id|] eqn:H2;
        [destruct (truthy (env w !! "AZURE_CLIENT_SECRET")) as [secret|] eqn:H3|]|].
    + cbn. rewrite Hi. exact (init_requested w tenant id secret Hi Ht H1 H2 H3).
    + apply init_missing; auto.
    + apply init_missing; auto.
    + apply init_missing; auto.
Qed.

(** ** Invariants of the machine *)

Lemma start_GetAccessToken_this c w :
  this (fst (start (GetAccessToken c) w)) = this w /\
  env (fst (start (GetAccessToken c) w)) = env w /\
  allocated (fst (start (GetAccessToken c) w)) = allocated w /\
  snd (start (GetAccessToken c) w) <> Suspended AtInitIssuer.
Proof.
  unfold start, acquireToken_begin.
  destruct (authProvider c); [simpl; auto|].
  destruct (msalApp (this w)); simpl; auto.
Qed.

Lemma probe_begin_this c w :
  this (fst (probe_begin c w)) = this w /\
  env (fst (probe_begin c w)) = env w /\
  allocated (fst (probe_begin c w)) = allocated w.
Proof.
  unfold probe_begin, acquireToken_begin.
  destruct (authProvider c); [simpl; auto|].
  destruct (msalApp (this w)); simpl; auto.
Qed.

Lemma getAuthStatus_end_this ok w :
  this (fst (getAuthStatus_end ok w)) = this w /\
  env (fst (getAuthStatus_end ok w)) = env w /\
  allocated (fst (getAuthStatus_end ok w)) = allocated w.
Proof. destruct ok; simpl; auto. Qed.

(** What a resumed call may do to the service: nothing, or, when it was
    waiting inside [initializeClient] and the issuer gave a result,
    install a new client. *)
Lemma resume_this op p r w w' t :
  resume op p r w = Some (w', t) ->
  env w' = env w /\
  t <> Suspended AtInitIssuer /\
  ((this w' = this w /\ allocated w' = allocated w) \/
   (p = AtInitIssuer /\
    this w' = MkService (Some (MkClient (allocated w) ViaAcquireToken)) true
                (msalApp (this w)) /\
    allocated w' = S (allocated w))).
Proof.
  intros H.
  destruct op, p, r as [|[[res|]|e]|ok]; simpl in H; try discriminate;
    try (injection H as <- <-; simpl; auto 8; fail).
  - (* getAuthStatus, after initializeClient *)
    destruct (client (this w)) as [c|]; [|injection H as <- <-; auto 8].
    pose proof (probe_begin_this c w) as (Ht & He & Ha).
    destruct (probe_begin c w) as [w1 []]; simpl in *;
      injection H as <- <-; simpl; auto 8.
  - (* getAuthStatus, the answer of Graph *)
    destruct ok; injection H as <- <-; simpl; auto 8.
Qed.

Lemma consistent_install s n p :
  (p = ViaAcquireToken -> msalApp s <> None) ->
  consistent (MkService (Some (MkClient n p)) true (msalApp s)).
Proof.
  intros Hp. split; simpl.
  - split; [discriminate | reflexivity].
  - intros c [= <-]. exact Hp.
Qed.

Lemma consistent_msal s app :
  consistent s -> isInitialized s = false ->
  consistent (MkService (client s) false (Some app)).
Proof.
  intros [H1 H2] Hi. split; simpl.
  - rewrite <- H1, Hi. reflexivity.
  - discriminate.
Qed.

Lemma in_flight_app cs op t :
  init_in_flight (cs ++ [(op, t)]) ->
  init_in_flight cs \/ t = Suspended AtInitIssuer.
Proof.
  intros (i & op' & H). apply lookup_app_Some in H as [H|[_ H]].
  - left. exists i, op'. exact H.
  - right. destruct (i - length cs)%nat; simpl in H; [|discriminate].
    congruence.
Qed.

Lemma in_flight_insert cs i op t :
  init_in_flight (<[i := (op, t)]> cs) ->
  t <> Suspended AtInitIssuer -> init_in_flight cs.
Proof.
  intros (j & op' & H) Ht. destruct (decide (i = j)) as [->|Hij].
  - destruct (decide (j < length cs)%nat) as [Hlt|Hge].
    + rewrite list_lookup_insert_eq in H by exact Hlt. congruence.
    + rewrite list_insert_ge in H by lia. exists j, op'. exact H.
  - rewrite list_lookup_insert_ne in H by exact Hij. exists j, op'. exact H.
Qed.

Lemma start_call_outcome op w :
  op = GetAuthStatus \/ op = GetClient ->
  exists w' waiting,
    init_begin_outcome w (w', waiting) /\
    start op w = (w', Suspended (if waiting then AtInitIssuer else AtInitialize)).
Proof.
  intros Hop. pose proof (initializeClient_begin_outcome w) as H.
  destruct (initializeClient_begin w) as [w' waiting] eqn:E.
  exists w', waiting. split; [exact H|].
  destruct Hop as [-> | ->]; simpl; rewrite E; reflexivity.
Qed.

(** Every action preserves the invariant. *)
Lemma perform_ok a m m' :
  machine_ok m -> perform a m = Some m' -> machine_ok m'.
Proof.
  intros [Hc Hf] H. destruct a as [op|i r|e]; unfold perform in H.
  - (* a new call *)
    destruct op as [| |c].
    1,2: match type of H with context [start ?op _] =>
           destruct (start_call_outcome op (world m) ltac:(auto))
             as (w' & waiting & Ho & Hs)
         end;
      rewrite Hs in H; injection H as <-; unfold machine_ok; simpl;
      inversion Ho; subst; simpl.
    all: try (split; [exact Hc|];
              intros Hin; apply in_flight_app in Hin as [Hin|]; [auto | discriminate]).
    all: try (split; [apply consistent_install; discriminate|];
              intros Hin; apply in_flight_app in Hin as [Hin|]; [auto | discriminate]).
    all: try (split; [apply consistent_msal; assumption | discriminate]).
    pose proof (start_GetAccessToken_this c (world m)) as (Ht & _ & _ & Hn).
    destruct (start (GetAccessToken c) (world m)) as [w' t]. simpl in *.
    injection H as <-. unfold machine_ok. simpl. rewrite Ht. split; [exact Hc|].
    intros Hin. apply in_flight_app in Hin as [Hin|]; [auto | contradiction].
  - (* a call resumes *)
    destruct (calls m !! i) as [[op [p|]]|] eqn:Ei; try discriminate.
    destruct (resume op p r (world m)) as [[w' t]|] eqn:Er; [|discriminate].
    injection H as <-. unfold machine_ok. simpl.
    apply resume_this in Er as (_ & Hn & [[Ht _] | (-> & Ht & _)]); rewrite Ht.
    + split; [exact Hc|]. intros Hin. eapply Hf, in_flight_insert; eauto.
    + assert (Hm : msalApp (this (world m)) <> None)
        by (apply Hf; exists i, op; exact Ei).
      split; [apply consistent_install; auto | intros _; exact Hm].
  - injection H as <-. split; [exact Hc | exact Hf].
Qed.

(** The invariant holds in every reachable state. *)
Lemma reachable_ok m : reachable m -> machine_ok m.
Proof.
  induction 1 as [|m a m' _ IH H].
  - split; [split; simpl|].
    + split; [discriminate | congruence].
    + discriminate.
    + intros (i & op & H). simpl in H. destruct i; discriminate.
  - eapply perform_ok; eauto.
Qed.

Lemma start_initialized op w :
  isInitialized (this w) = true -> op = GetAuthStatus \/ op = GetClient ->
  start op w = (w, Suspended AtInitialize).
Proof.
  intros Hi [-> | ->]; unfold start, initializeClient_begin; rewrite Hi;
    reflexivity.
Qed.

Lemma not_in_flight_app cs op t :
  ~ init_in_flight cs -> t <> Suspended AtInitIssuer ->
  ~ init_in_flight (cs ++ [(op, t)]).
Proof. intros Hn Ht H. apply in_flight_app in H as [H|H]; auto. Qed.

Lemma later_calls_app c n cs op t :
  later_calls_return c n cs ->
  (op = GetClient -> t = Suspended AtInitialize \/ t = Settled (ClientResult c)) ->
  later_calls_return c n (cs ++ [(op, t)]).
Proof.
  intros Hl Ht i t' Hi H. apply lookup_app_Some in H as [H|[_ H]].
  - eauto.
  - destruct (i - length cs)%nat; simpl in H; [|discriminate].
    injection H as -> ->. auto.
Qed.

Lemma later_calls_insert c n cs i op t :
  later_calls_return c n cs ->
  (op = GetClient -> t = Suspended AtInitialize \/ t = Settled (ClientResult c)) ->
  later_calls_return c n (<[i := (op, t)]> cs).
Proof.
  intros Hl Ht j t' Hj H. destruct (decide (i = j)) as [->|Hij].
  - destruct (decide (j < length cs)%nat) as [Hlt|Hge].
    + rewrite list_lookup_insert_eq in H by exact Hlt.
      injection H as -> ->. auto.
    + rewrite list_insert_ge in H by lia. eauto.
  - rewrite list_lookup_insert_ne in H by exact Hij. eauto.
Qed.

(** Once initialisation has settled no action changes the client, builds
    a client or puts a call back inside [initializeClient]. *)
Lemma perform_stable c a n act m m' :
  stable c a n m -> perform act m = Some m' -> stable c a n m'.
Proof.
  intros ([Hi Hn] & Hc & Ha & Hl) H. destruct act as [op|i r|e]; unfold perform in H.
  - destruct op as [| |c'].
    1,2: match type of H with context [start ?op _] =>
           rewrite (start_initialized op (world m) Hi ltac:(auto)) in H
         end; injection H as <-; unfold stable, init_settled; simpl;
         (split; [split; [exact Hi | apply not_in_flight_app; [exact Hn | discriminate]]|]);
         (split; [exact Hc|]); (split; [exact Ha|]);
         apply later_calls_app; auto; discriminate.
    pose proof (start_GetAccessToken_this c' (world m)) as (Ht & _ & Hal & Hne).
    destruct (start (GetAccessToken c') (world m)) as [w' t]. simpl in *.
    injection H as <-. unfold stable, init_settled. simpl. rewrite Ht, Hal.
    split; [split; [exact Hi | apply not_in_flight_app; assumption]|].
    split; [exact Hc|]. split; [exact Ha|].
    apply later_calls_app; [exact Hl | discriminate].
  - destruct (calls m !! i) as [[op [p|]]|] eqn:Ei; try discriminate.
    destruct (resume op p r (world m)) as [[w' t]|] eqn:Er; [|discriminate].
    injection H as <-. unfold stable, init_settled. simpl.
    pose proof Er as Er'.
    apply resume_this in Er' as (_ & Hne & [[Ht Hal] | (-> & _)]).
    + rewrite Ht, Hal.
      split; [split; [exact Hi|]|].
      { intros Hin. apply Hn. eapply in_flight_insert; eauto. }
      split; [exact Hc|]. split; [exact Ha|].
      apply later_calls_insert; [exact Hl|]. intros ->.
      destruct p, r; simpl in Er; try discriminate.
      * injection Er as <- <-. left. reflexivity.
      * injection Er as <- <-. right. unfold getClient_end. rewrite Hc.
        reflexivity.
    + exfalso. apply Hn. exists i, op. exact Ei.
  - injection H as <-. unfold stable, init_settled. simpl. auto.
Qed.

Lemma perform_all_stable c a n acts m m' :
  stable c a n m -> perform_all acts m = Some m' -> stable c a n m'.
Proof.
  revert m. induction acts as [|act acts IH]; intros m Hs H; simpl in H.
  - injection H as <-. exact Hs.
  - destruct (perform act m) as [m1|] eqn:E; [|discriminate].
    eapply IH; [|exact H]. eapply perform_stable; eauto.
Qed.

Lemma reachable_perform_all acts m m' :
  reachable m -> perform_all acts m = Some m' -> reachable m'.
Proof.
  revert m. induction acts as [|a acts IH]; intros m Hr H; simpl in H.
  - injection H as <-. exact Hr.
  - destruct (perform a m) as [m1|] eqn:E; [|discriminate].
    eapply IH; [|exact H]. eapply reachable_perform; eauto.
Qed.

Lemma reachable_after acts : reachable (after acts).
Proof.
  unfold after. destruct (perform_all acts power_on) as [m|] eqn:E; simpl.
  - eapply reachable_perform_all; [apply reachable_power_on | exact E].
  - apply reachable_power_on.
Qed.

Lemma init_in_flight_check cs :
  existsb waits_in_init cs = false -> ~ init_in_flight cs.
Proof.
  intros H (i & op & Hl).
  assert (He : existsb waits_in_init cs = true).
  { apply existsb_exists. exists (op, Suspended AtInitIssuer).
    split; [|reflexivity]. apply list_elem_of_In, list_elem_of_lookup. eauto. }
  congruence.
Qed.

(** ** Calls on an initialised service *)

Lemma initializeClient_initialized net w :
  isInitialized (this w) = true -> initializeClient net w = w.
Proof.
  intros Hi. unfold initializeClient, initializeClient_begin. rewrite Hi.
  reflexivity.
Qed.

Lemma initializeClient_end_env r w : env (initializeClient_end r w) = env w.
Proof. destruct r as [[?|]|?]; reflexivity. Qed.

Lemma initializeClient_env net w : env (initializeClient net w) = env w.
Proof.
  unfold initializeClient.
  pose proof (initializeClient_begin_outcome w) as Ho.
  destruct (initializeClient_begin w) as [w' waiting].
  assert (He : env w' = env w) by (inversion Ho; reflexivity).
  destruct waiting; [rewrite initializeClient_end_env|]; exact He.
Qed.

Lemma probe_this net c w :
  this (fst (probe net c w)) = this w /\ env (fst (probe net c w)) = env w.
Proof.
  unfold probe. pose proof (probe_begin_this c w) as (Ht & He & _).
  destruct (probe_begin c w) as [w1 []]; simpl in *; auto.
  destruct (acquireToken_end (issuer net (trace w1))); simpl; auto.
Qed.

Lemma getAuthStatus_this net w :
  this (fst (getAuthStatus net w)) = this (initializeClient net w).
Proof.
  unfold getAuthStatus. destruct (client (this (initializeClient net w))) as [c|];
    [|reflexivity].
  pose proof (probe_this net c (initializeClient net w)) as [Ht _].
  destruct (probe net c (initializeClient net w)) as [w1 ok]. simpl in *.
  rewrite <- Ht. apply getAuthStatus_end_this.
Qed.

(** ** A call run to completion is a run of the machine *)

(** On the machine, a call started and answered at once does what the
    function of the same name does. *)
Lemma run_getClient net w :
  run net GetClient w =
  (fst (getClient net w),
   Settled (of_completion ClientResult (snd (getClient net w)))).
Proof.
  unfold run, getClient, initializeClient, start.
  destruct (initializeClient_begin w) as [w1 []]; reflexivity.
Qed.

Lemma run_getAccessToken net c w :
  run net (GetAccessToken c) w =
  (fst (getAccessToken net c w),
   Settled (of_completion TokenResult (snd (getAccessToken net c w)))).
Proof.
  unfold run, getAccessToken, acquireToken, start.
  destruct (authProvider c); [reflexivity|].
  destruct (acquireToken_begin w) as [w1 [e|]]; reflexivity.
Qed.

Lemma run_getAuthStatus_after_init net n w :
  run_task net (3 + n) GetAuthStatus w (Suspended AtInitialize) =
  match client (this w) with
  | None => (w, Settled (StatusResult unauthenticated))
  | Some c =>
      let (w', ok) := probe net c w in settle_status (getAuthStatus_end ok w')
  end.
Proof.
  simpl. destruct (client (this w)) as [c|]; [|reflexivity].
  unfold probe. destruct (probe_begin c w) as [w3 []]; simpl.
  - destruct (acquireToken_end (issuer net (trace w3))); simpl.
    + destruct (graph net _); destruct n; reflexivity.
    + reflexivity.
  - destruct (graph net (trace w3)); reflexivity.
  - reflexivity.
Qed.

Lemma run_getAuthStatus net w :
  run net GetAuthStatus w =
  (fst (getAuthStatus net w), Settled (StatusResult (snd (getAuthStatus net w)))).
Proof.
  unfold run, getAuthStatus, initializeClient, start.
  destruct (initializeClient_begin w) as [w1 waiting].
  set (w2 := if waiting then initializeClient_end (issuer net (trace w1)) w1 else w1).
  assert (E : run_task net 4 GetAuthStatus w1
                (Suspended (if waiting then AtInitIssuer else AtInitialize)) =
              match client (this w2) with
              | None => (w2, Settled (StatusResult unauthenticated))
              | Some c =>
                  let (w', ok) := probe net c w2 in
                  settle_status (getAuthStatus_end ok w')
              end).
  { destruct waiting.
    - exact (run_getAuthStatus_after_init net 0 w2).
    - exact (run_getAuthStatus_after_init net 1 w2). }
  rewrite E. clear E.
  destruct (client (this w2)) as [c|]; [|reflexivity].
  destruct (probe net c w2) as [w3 ok].
  destruct (getAuthStatus_end ok w3); reflexivity.
Qed.

(** Running a call to its end is a sequence of deliveries on the
    machine. *)
Lemma run_task_performed net fuel op cs w t :
  exists acts,
    perform_all acts (MkMachine w (cs ++ [(op, t)])) =
    Some (MkMachine (fst (run_task net fuel op w t))
            (cs ++ [(op, snd (run_task net fuel op w t))])).
Proof.
  revert w t. induction fuel as [|fuel IH]; intros w t.
  - exists []. reflexivity.
  - destruct t as [p|r]; [|exists []; reflexivity].
    simpl. destruct (resume op p (answer net p w) w) as [[w' t']|] eqn:E;
      [|exists []; reflexivity].
    destruct (IH w' t') as [acts Hacts].
    exists (Deliver (length cs) (answer net p w) :: acts).
    simpl. rewrite list_lookup_middle by reflexivity. rewrite E.
    replace (<[length cs := (op, t')]> (cs ++ [(op, Suspended p)]))
      with (cs ++ [(op, t')]); [exact Hacts|].
    rewrite insert_app_r_alt by lia. rewrite Nat.sub_diag. reflexivity.
Qed.

(** A call run to its end settles. *)
Lemma run_settles net op w : exists r, snd (run net op w) = Settled r.
Proof.
  destruct op as [| |c].
  - rewrite run_getAuthStatus. eauto.
  - rewrite run_getClient. eauto.
  - rewrite run_getAccessToken. eauto.
Qed.

(** Every call run to completion from a reachable state ends in a
    reachable state. *)
Lemma run_reachable net op m :
  reachable m ->
  reachable (MkMachine (fst (run net op (world m)))
               (calls m ++ [(op, snd (run net op (world m)))])).
Proof.
  intros Hr. unfold run. destruct (start op (world m)) as [w1 t1] eqn:Es.
  destruct (run_task_performed net 4 op (calls m) w1 t1) as [acts Hacts].
  eapply reachable_perform_all; [|exact Hacts].
  apply (reachable_perform m (Call op) _ Hr). unfold perform. rewrite Es.
  reflexivity.
Qed.

(** ** Static-token mode never touches the credential flow *)

Lemma initializeClient_no_wait net w :
  snd (initializeClient_begin w) = false ->
  initializeClient net w = fst (initializeClient_begin w).
Proof.
  unfold initializeClient. destruct (initializeClient_begin w) as [w' waiting].
  simpl. intros ->. reflexivity.
Qed.

(** C2, amended.  When [AUTH_TOKEN] holds a non-empty string, a run of
    [initializeClient] completes without waiting for the issuer, reads
    none of the three credential variables and sends no token request;
    and when that token does not validate the service is left as it
    was (not initialised, if it was not). *)
Theorem static_token_disables_credential_flow
    (net : Network) (w : World) (token : jsstring) :
  env w !! "AUTH_TOKEN" = Some token -> token <> [] ->
  snd (initializeClient_begin w) = false /\
  (exists new, trace (initializeClient net w) = new ++ trace w /\
               credential_free new) /\
  (validateToken token = None -> this (initializeClient net w) = this w).
Proof.
  intros He Hne.
  assert (Ht : truthy (env w !! "AUTH_TOKEN") = Some token)
    by (apply truthy_some; auto).
  pose proof (initializeClient_begin_outcome w) as Ho.
  assert (Hw : snd (initializeClient_begin w) = false).
  { inversion Ho; try reflexivity. congruence. }
  split; [exact Hw|]. rewrite (initializeClient_no_wait net w Hw).
  inversion Ho as [Hi E | t Hi Het Htne Hv c E | t text Hi Het Htne Hv Hc E
                  | Hi Hnone _ E | ? ? ? Hi Hnone _ _ _ app E]; simpl;
    try congruence.
  - split; [exists []; split; reflexivity | reflexivity].
  - split; [eexists [_; _]; split; reflexivity|]. intros Hnone.
    congruence.
  - split; [eexists [_; _]; split; reflexivity | reflexivity].
Qed.

(** ** Initialisation happens once *)

Lemma initializeClient_begin_attempt w :
  isInitialized (this w) = false ->
  exists new,
    trace (fst (initializeClient_begin w)) = new ++ EnvRead "AUTH_TOKEN" :: trace w.
Proof.
  intros Hi. pose proof (initializeClient_begin_outcome w) as Ho.
  inversion Ho; simpl; try congruence.
  - eexists [_]. reflexivity.
  - eexists [_]. reflexivity.
  - eexists [_; _; _; _]. reflexivity.
  - eexists [_; _; _; _]. reflexivity.
Qed.

Lemma initialization_settles_aux m c acts m' :
  init_settled m -> client (this (world m)) = Some c ->
  perform_all acts m = Some m' ->
  client (this (world m')) = Some c /\
  stable c (allocated (world m)) (length (calls m)) m'.
Proof.
  intros Hs Hc Hp.
  assert (Hst : stable c (allocated (world m)) (length (calls m)) m).
  { split; [exact Hs|]. split; [exact Hc|]. split; [reflexivity|].
    intros i t Hi Hl. apply lookup_lt_Some in Hl. lia. }
  pose proof (perform_all_stable _ _ _ _ _ _ Hst Hp) as Hst'.
  split; [apply Hst' | exact Hst'].
Qed.

(** C3, amended.  [initializeClient] runs its body exactly when
    [isInitialized] is false: with the flag set it does nothing, with
    the flag clear every call attempts initialisation again.  Once
    initialisation has succeeded and no call is still waiting for the
    issuer inside [initializeClient], no client is constructed any more
    and every [getClient] call made from then on, whatever else
    interleaves with it, returns the one client installed. *)
Theorem initialization_settles
    (m : Machine) (c : Client) (acts : list Action) (m' : Machine) :
  init_settled m ->
  client (this (world m)) = Some c ->
  perform_all acts m = Some m' ->
  client (this (world m')) = Some c /\
  allocated (world m') = allocated (world m) /\
  (forall i r, (length (calls m) <= i)%nat ->
               calls m' !! i = Some (GetClient, Settled r) ->
               r = ClientResult c) /\
  (forall net, getClient net (world m') = (world m', Normal c)) /\
  (forall w, isInitialized (this w) = true ->
             initializeClient_begin w = (w, false)) /\
  (forall w, isInitialized (this w) = false ->
             exists new, trace (fst (initializeClient_begin w)) =
                         new ++ EnvRead "AUTH_TOKEN" :: trace w).
Proof.
  intros Hs Hc Hp.
  destruct (initialization_settles_aux m c acts m' Hs Hc Hp)
    as (_ & [Hi' _] & Hc' & Ha' & Hl').
  split; [exact Hc'|]. split; [exact Ha'|]. split; [|split; [|split]].
  - intros i r Hi Hlook. destruct (Hl' i _ Hi Hlook) as [H|H]; congruence.
  - intros net. unfold getClient.
    rewrite initializeClient_initialized by exact Hi'.
    unfold getClient_end. rewrite Hc'. reflexivity.
  - intros w Hi. unfold initializeClient_begin. rewrite Hi. reflexivity.
  - exact initializeClient_begin_attempt.
Qed.

(** ** A failed probe leaves the session usable *)

Lemma consistent_client_initialized s c :
  consistent s -> client s = Some c -> isInitialized s = true.
Proof. intros [H _] Hc. apply H. congruence. Qed.

(** C4.  In every reachable state with a client, when the probe of
    [getAuthStatus] fails the call returns [{isAuthenticated: false}]
    and leaves the service (client, flag, MSAL application) as it was;
    a [getClient] call after it returns that same client and does
    nothing else: [initializeClient] is not run again.  Within an
    interleaving, the step that receives the refusal of Graph settles
    the call with that status and only writes to the console. *)
Theorem probe_failure_keeps_session
    (net : Network) (m : Machine) (c : Client) :
  reachable m ->
  client (this (world m)) = Some c ->
  snd (probe net c (world m)) = false ->
  (exists w',
     getAuthStatus net (world m) = (w', unauthenticated) /\
     this w' = this (world m) /\
     forall net', getClient net' w' = (w', Normal c)) /\
  (forall w, resume GetAuthStatus AtGraph (FromGraph false) w =
             Some (note (ConsoleError (js "Error verifying auth:")) w,
                   Settled (StatusResult unauthenticated))).
Proof.
  intros Hr Hc Hp. split; [|reflexivity].
  apply reachable_ok in Hr as [Hcons _].
  pose proof (consistent_client_initialized _ _ Hcons Hc) as Hi.
  assert (Hs : this (fst (getAuthStatus net (world m))) = this (world m)).
  { rewrite getAuthStatus_this, initializeClient_initialized by exact Hi.
    reflexivity. }
  exists (fst (getAuthStatus net (world m))). split; [|split; [exact Hs|]].
  - unfold getAuthStatus in *. rewrite initializeClient_initialized in * by exact Hi.
    rewrite Hc in *. destruct (probe net c (world m)) as [w1 ok].
    simpl in Hp. subst ok. reflexivity.
  - intros net'. unfold getClient.
    rewrite initializeClient_initialized by (rewrite Hs; exact Hi).
    unfold getClient_end. rewrite Hs, Hc. reflexivity.
Qed.

(** ** getClient without a client *)

(** C5.  Whenever [initializeClient] leaves the service without a
    client, [getClient] throws (the call that resumes after
    [initializeClient] is rejected), and the message of the error
    contains the names [AZURE_TENANT_ID], [AZURE_CLIENT_ID] and
    [AZURE_CLIENT_SECRET]. *)
Theorem getClient_rejects_naming_variables (net : Network) (w : World) :
  client (this (initializeClient net w)) = None ->
  exists e,
    snd (getClient net w) = Throw e /\
    resume GetClient AtInitialize Tick (initializeClient net w) =
      Some (initializeClient net w, Settled (Rejected e)) /\
    names_the_variables e.
Proof.
  intros H. exists not_authenticated. split; [|split].
  - unfold getClient, getClient_end. simpl. rewrite H. reflexivity.
  - simpl. unfold getClient_end. rewrite H. reflexivity.
  - repeat split; vm_compute; reflexivity.
Qed.

(** In particular with none of the four variables in the environment. *)
Lemma no_configuration_no_client net w :
  this w = fresh ->
  env w !! "AUTH_TOKEN" = None -> env w !! "AZURE_TENANT_ID" = None ->
  client (this (initializeClient net w)) = None.
Proof.
  intros Hf Ha Ht. unfold initializeClient.
  pose proof (initializeClient_begin_outcome w) as Ho.
  destruct (initializeClient_begin w) as [w' waiting].
  inversion Ho; subst; simpl; try (rewrite Hf; reflexivity); try congruence.
Qed.

(** ** The status reports the live environment *)

(** C6.  When the probe of [getAuthStatus] succeeds the result is
    [{isAuthenticated: true, tenantId, clientId}] with the two values
    [AZURE_TENANT_ID] and [AZURE_CLIENT_ID] have in the environment of
    this call (whatever the environment was when the service was
    initialised); the same holds when the answer of Graph reaches a
    call that other calls interleaved with. *)
Theorem getAuthStatus_reads_live_environment
    (net : Network) (w : World) (c : Client) :
  client (this (initializeClient net w)) = Some c ->
  snd (probe net c (initializeClient net w)) = true ->
  snd (getAuthStatus net w) =
    Status.Build true (env w !! "AZURE_TENANT_ID") (env w !! "AZURE_CLIENT_ID") /\
  (forall t id, env w !! "AZURE_TENANT_ID" = Some t ->
                env w !! "AZURE_CLIENT_ID" = Some id ->
                snd (getAuthStatus net w) = Status.Build true (Some t) (Some id)) /\
  (forall w1, snd <$> resume GetAuthStatus AtGraph (FromGraph true) w1 =
              Some (Settled (StatusResult
                (Status.Build true (env w1 !! "AZURE_TENANT_ID")
                   (env w1 !! "AZURE_CLIENT_ID"))))).
Proof.
  intros Hc Hp.
  assert (H : snd (getAuthStatus net w) =
    Status.Build true (env w !! "AZURE_TENANT_ID") (env w !! "AZURE_CLIENT_ID")).
  { unfold getAuthStatus. rewrite Hc.
    pose proof (probe_this net c (initializeClient net w)) as [_ He].
    destruct (probe net c (initializeClient net w)) as [w1 ok]. simpl in *.
    subst ok. simpl. rewrite He, initializeClient_env. reflexivity. }
  split; [exact H|]. split; [|reflexivity].
  intros t id Ht Hid. rewrite H, Ht, Hid. reflexivity.
Qed.

(** ** The credential mode *)

(** C7, amended.  The mode is the one selected by the initialisation
    that succeeds, from the environment of that attempt; an attempt
    that fails leaves no mode behind.  Once initialisation has
    succeeded and no call is still waiting for the issuer inside
    [initializeClient], the active mode never changes, whatever is
    done to the environment. *)
Theorem mode_fixed_by_successful_initialization
    (m : Machine) (mode : CredentialMode) (acts : list Action) (m' : Machine) :
  init_settled m ->
  active_mode (world m) = Some mode ->
  perform_all acts m = Some m' ->
  active_mode (world m') = Some mode /\
  (forall net w,
     isInitialized (this w) = false ->
     isInitialized (this (initializeClient net w)) = true ->
     active_mode (initializeClient net w) = Some (selected_mode (env w))) /\
  (forall net w,
     isInitialized (this w) = false ->
     isInitialized (this (initializeClient net w)) = false ->
     active_mode (initializeClient net w) = active_mode w).
Proof.
  intros Hs Hm Hp. split; [|split].
  - unfold active_mode in *.
    destruct (client (this (world m))) as [c|] eqn:Hc; [|discriminate].
    destruct (initialization_settles_aux m c acts m' Hs Hc Hp) as [Hc' _].
    rewrite Hc'. exact Hm.
  - intros net w Hi. unfold initializeClient, selected_mode.
    pose proof (initializeClient_begin_outcome w) as Ho.
    destruct (initializeClient_begin w) as [w' waiting].
    inversion Ho as [| t ? Het Htne | | | ? ? ? ? Hnone]; subst; simpl; try congruence.
    + intros _. assert (Ht : truthy (env w !! "AUTH_TOKEN") = Some t)
        by (apply truthy_some; auto).
      rewrite Ht. reflexivity.
    + rewrite Hnone. destruct (issuer net _) as [[?|]|?]; simpl; try congruence.
      reflexivity.
  - intros net w Hi. unfold initializeClient.
    pose proof (initializeClient_begin_outcome w) as Ho.
    destruct (initializeClient_begin w) as [w' waiting].
    inversion Ho; subst; simpl; try congruence; try reflexivity.
    destruct (issuer net _) as [[?|]|?]; simpl; try congruence; reflexivity.
Qed.

(** ** The token provider of client-credential mode *)

(** C8, amended.  In every reachable state whose client was built in
    client-credential mode, each invocation of its [getAccessToken]
    sends a new token request to the issuer and settles with what that
    very request yields: the access token of its result, an error
    naming the three variables when the result is [null], and the
    issuer's own error, unchanged, when the issuer rejects. *)
Theorem provider_asks_issuer_each_time
    (net : Network) (m : Machine) (c : Client) :
  reachable m ->
  client (this (world m)) = Some c ->
  authProvider c = ViaAcquireToken ->
  exists app w1,
    msalApp (this (world m)) = Some app /\
    w1 = note (TokenRequest app [CLIENT_CREDENTIAL_SCOPE]) (world m) /\
    start (GetAccessToken c) (world m) = (w1, Suspended AtAcquireIssuer) /\
    getAccessToken net c (world m) = (w1, acquireToken_end (issuer net (trace w1))) /\
    (forall result, issuer net (trace w1) = IssuerResolves (Some result) ->
       snd (getAccessToken net c (world m)) = Normal (accessToken result)) /\
    (issuer net (trace w1) = IssuerResolves None ->
       exists e, snd (getAccessToken net c (world m)) = Throw e /\
                 names_the_variables e) /\
    (forall e, issuer net (trace w1) = IssuerRejects e ->
       snd (getAccessToken net c (world m)) = Throw e).
Proof.
  intros Hr Hc Hp. apply reachable_ok in Hr as [[_ Hmsal] _].
  destruct (msalApp (this (world m))) as [app|] eqn:Ea;
    [|exfalso; exact (Hmsal c Hc Hp eq_refl)].
  exists app, (note (TokenRequest app [CLIENT_CREDENTIAL_SCOPE]) (world m)).
  assert (Hg : getAccessToken net c (world m) =
    (note (TokenRequest app [CLIENT_CREDENTIAL_SCOPE]) (world m),
     acquireToken_end
       (issuer net (trace (note (TokenRequest app [CLIENT_CREDENTIAL_SCOPE]) (world m)))))).
  { unfold getAccessToken, acquireToken, acquireToken_begin.
    rewrite Hp, Ea. reflexivity. }
  split; [reflexivity|]. split; [reflexivity|]. split.
  { unfold start, acquireToken_begin. rewrite Hp, Ea. reflexivity. }
  split; [exact Hg|]. rewrite Hg. simpl. split; [|split].
  - intros result ->. reflexivity.
  - intros ->. exists acquire_failed. split; [reflexivity|].
    repeat split; vm_compute; reflexivity.
  - intros e ->. reflexivity.
Qed.

(** ** The flag implies the client *)

(** The client field is never cleared. *)
Lemma perform_keeps_client a m m' :
  client (this (world m)) <> None -> perform a m = Some m' ->
  client (this (world m')) <> None.
Proof.
  intros Hc H. destruct a as [op|i r|e]; unfold perform in H.
  - destruct op as [| |c'].
    1,2: match type of H with context [start ?op _] =>
           destruct (start_call_outcome op (world m) ltac:(auto))
             as (w' & waiting & Ho & Hs)
         end; rewrite Hs in H; injection H as <-; simpl;
         inversion Ho; subst; simpl; (exact Hc || discriminate).
    pose proof (start_GetAccessToken_this c' (world m)) as (Ht & _).
    destruct (start (GetAccessToken c') (world m)) as [w' t]. simpl in *.
    injection H as <-. simpl. rewrite Ht. exact Hc.
  - destruct (calls m !! i) as [[op [p|]]|] eqn:Ei; try discriminate.
    destruct (resume op p r (world m)) as [[w' t]|] eqn:Er; [|discriminate].
    injection H as <-. simpl.
    apply resume_this in Er as (_ & _ & [[Ht _] | (_ & Ht & _)]); rewrite Ht;
      [exact Hc | discriminate].
  - injection H as <-. exact Hc.
Qed.

Lemma perform_keeps_success n a m m' :
  client (this (world m)) <> None -> later_calls_succeed n (calls m) ->
  perform a m = Some m' -> later_calls_succeed n (calls m').
Proof.
  intros Hc Hl H. destruct a as [op|i r|e]; unfold perform in H.
  - destruct (start op (world m)) as [w' t] eqn:Es. injection H as <-. simpl.
    intros j r Hj Hlook. apply lookup_app_Some in Hlook as [Hlook|[_ Hlook]];
      [eauto|].
    destruct (j - length (calls m))%nat; simpl in Hlook; [|discriminate].
    injection Hlook as -> ->. simpl in Es.
    destruct (initializeClient_begin (world m)) as [? []]; discriminate.
  - destruct (calls m !! i) as [[op [p|]]|] eqn:Ei; try discriminate.
    destruct (resume op p r (world m)) as [[w' t]|] eqn:Er; [|discriminate].
    injection H as <-. simpl. intros j r' Hj Hlook.
    destruct (decide (i = j)) as [->|Hij].
    + destruct (decide (j < length (calls m))%nat) as [Hlt|Hge].
      * rewrite list_lookup_insert_eq in Hlook by exact Hlt.
        injection Hlook as -> ->.
        destruct p, r; simpl in Er; try discriminate.
        injection Er as _ Er. unfold getClient_end in Er.
        destruct (client (this (world m))) as [c|]; [|congruence].
        simpl in Er. subst r'. eauto.
      * rewrite list_insert_ge in Hlook by lia. eauto.
    + rewrite list_lookup_insert_ne in Hlook by exact Hij. eauto.
  - injection H as <-. exact Hl.
Qed.

Lemma perform_all_keeps_success n acts m m' :
  client (this (world m)) <> None -> later_calls_succeed n (calls m) ->
  perform_all acts m = Some m' ->
  client (this (world m')) <> None /\ later_calls_succeed n (calls m').
Proof.
  revert m. induction acts as [|a acts IH]; intros m Hc Hl H; simpl in H.
  - injection H as <-. auto.
  - destruct (perform a m) as [m1|] eqn:E; [|discriminate].
    eapply IH; [| |exact H].
    + eapply perform_keeps_client; eauto.
    + eapply perform_keeps_success; eauto.
Qed.

(** C10.  In every reachable state: when [isInitialized] is set the
    client is defined; [isAuthenticated()] is true exactly when
    [isInitialized] is; and from a state where [isAuthenticated()] is
    true, [getClient] does not throw -- neither run on its own, nor as
    any later call of any interleaving. *)
Theorem initialized_has_client (m : Machine) :
  reachable m ->
  (isInitialized (this (world m)) = true ->
   exists c, client (this (world m)) = Some c) /\
  isAuthenticated (this (world m)) = isInitialized (this (world m)) /\
  (isAuthenticated (this (world m)) = true ->
   (forall net, exists c, snd (getClient net (world m)) = Normal c) /\
   (forall acts m' i r,
      perform_all acts m = Some m' -> (length (calls m) <= i)%nat ->
      calls m' !! i = Some (GetClient, Settled r) ->
      exists c, r = ClientResult c)).
Proof.
  intros Hr. apply reachable_ok in Hr as [[Hic Hmsal] _].
  assert (H1 : isInitialized (this (world m)) = true ->
               exists c, client (this (world m)) = Some c).
  { intros Hi. apply Hic in Hi. destruct (client (this (world m))); [eauto | congruence]. }
  assert (H2 : isAuthenticated (this (world m)) = isInitialized (this (world m))).
  { unfold isAuthenticated. destruct (client (this (world m))) as [c|] eqn:Ec;
      [reflexivity|].
    destruct (isInitialized (this (world m))) eqn:Ei; [|reflexivity].
    destruct (H1 eq_refl) as [c Hc0]. discriminate. }
  split; [exact H1|]. split; [exact H2|].
  intros Ha. rewrite H2 in Ha. destruct (H1 Ha) as [c Hc]. split.
  - intros net. exists c. unfold getClient. simpl.
    rewrite initializeClient_initialized by exact Ha.
    unfold getClient_end. rewrite Hc. reflexivity.
  - intros acts m' i r Hp Hi Hlook.
    assert (Hl : later_calls_succeed (length (calls m)) (calls m)).
    { intros j r' Hj Hl. apply lookup_lt_Some in Hl. lia. }
    destruct (perform_all_keeps_success _ acts m m' ltac:(congruence) Hl Hp)
      as [_ Hs].
    eapply Hs; eauto.
Qed.

(** ** The start-up check of index.ts *)

Lemma filter_required_nil (e : gmap string jsstring) :
  filter (fun key => truthy (e !! key) = None) required = [] <->
  forall key, key ∈ required -> truthy (e !! key) <> None.
Proof.
  split.
  - intros E key Hk Hn.
    assert (H : key ∈ filter (fun key => truthy (e !! key) = None) required)
      by (apply list_elem_of_filter; auto).
    rewrite E in H. apply not_elem_of_nil in H. exact H.
  - intros H.
    destruct (filter (fun key => truthy (e !! key) = None) required)
      as [|key rest] eqn:E; [reflexivity|].
    assert (Hk : key ∈ filter (fun key => truthy (e !! key) = None) required)
      by (rewrite E; apply elem_of_cons; auto).
    apply list_elem_of_filter in Hk as [Hn Hk]. destruct (H key Hk Hn).
Qed.

(** X1.  [validateEnv] lets the process start, writing nothing, exactly
    when [AUTH_TOKEN] is a non-empty string or each of the three
    credential variables is; otherwise it ends the process with exit
    code 1 after writing two lines, the first of which lists the
    variables that are unset or empty, and only those. *)
Theorem validateEnv_returns (e : gmap string jsstring) :
  (snd (validateEnv e) = Returns <->
   truthy (e !! "AUTH_TOKEN") <> None \/
   forall key, key ∈ required -> truthy (e !! key) <> None) /\
  (snd (validateEnv e) = Returns -> fst (validateEnv e) = []) /\
  (snd (validateEnv e) <> Returns ->
   snd (validateEnv e) = Exits 1 /\
   exists names,
     names <> [] /\
     (forall key, key ∈ names <-> key ∈ required /\ truthy (e !! key) = None) /\
     fst (validateEnv e) =
       [js "Missing required environment variables: " ++
          join_with (js ", ") (map js names);
        js "Set these in your environment or .env file."]).
Proof.
  unfold validateEnv.
  destruct (truthy (e !! "AUTH_TOKEN")) as [token|] eqn:Ht; simpl.
  - split; [split; auto; intros _; left; discriminate|].
    split; [reflexivity | congruence].
  - pose proof (filter_required_nil e) as Hnil.
    destruct (filter (fun key => truthy (e !! key) = None) required)
      as [|key rest] eqn:E; simpl.
    + split; [|split; [reflexivity | congruence]].
      split; [intros _; right; apply Hnil; reflexivity | reflexivity].
    + split; [|split; [discriminate|]].
      * split; [discriminate|]. intros [H|H]; [congruence|].
        apply Hnil in H. discriminate.
      * intros _. split; [reflexivity|]. exists (key :: rest).
        split; [discriminate|]. split; [|reflexivity].
        intros k. rewrite <- E, list_elem_of_filter. tauto.
Qed.

Lemma required_truthy (e : gmap string jsstring) :
  (forall key, key ∈ required -> truthy (e !! key) <> None) <->
  truthy (e !! "AZURE_TENANT_ID") <> None /\
  truthy (e !! "AZURE_CLIENT_ID") <> None /\
  truthy (e !! "AZURE_CLIENT_SECRET") <> None.
Proof.
  unfold required. split.
  - intros H. repeat split; apply H; repeat constructor.
  - intros (H1 & H2 & H3) key Hk.
    repeat (apply elem_of_cons in Hk as [->|Hk]; [assumption|]).
    apply not_elem_of_nil in Hk. contradiction.
Qed.

Lemma validateEnv_without_token (e : gmap string jsstring) :
  truthy (e !! "AUTH_TOKEN") = None ->
  (snd (validateEnv e) = Returns <->
   truthy (e !! "AZURE_TENANT_ID") <> None /\
   truthy (e !! "AZURE_CLIENT_ID") <> None /\
   truthy (e !! "AZURE_CLIENT_SECRET") <> None).
Proof.
  intros Ht. rewrite <- required_truthy, <- filter_required_nil.
  unfold validateEnv. rewrite Ht.
  destruct (filter (fun key => truthy (e !! key) = None) required); simpl;
    split; congruence.
Qed.

Lemma requests_app new old :
  requests (new ++ old) = (requests new + requests old)%nat.
Proof.
  induction new as [|[] new IH]; simpl; rewrite ?IH; reflexivity.
Qed.

(** X2.  Without a static token, the start-up check and
    [initializeClient] agree: on a service not yet initialised,
    [validateEnv] returns exactly when the body of [initializeClient]
    gets as far as asking the issuer for a token; and when [validateEnv]
    ends the process, [getClient] on a service without a client throws
    the "Not authenticated" error without a token request. *)
Theorem validateEnv_agrees_with_initializeClient (w : World) :
  isInitialized (this w) = false ->
  truthy (env w !! "AUTH_TOKEN") = None ->
  (snd (validateEnv (env w)) = Returns <->
   snd (initializeClient_begin w) = true) /\
  (snd (validateEnv (env w)) <> Returns ->
   client (this w) = None ->
   forall net,
     snd (getClient net w) = Throw not_authenticated /\
     requests (trace (fst (getClient net w))) = requests (trace w)).
Proof.
  intros Hi Ht. pose proof (validateEnv_without_token _ Ht) as Hv.
  pose proof (initializeClient_begin_outcome w) as Ho.
  assert (Hiff : snd (validateEnv (env w)) = Returns <->
                 snd (initializeClient_begin w) = true).
  { rewrite Hv.
    inversion Ho as [Hi' E | t Hi' Het Htne Hval c E | t text Hi' Het Htne Hval Hc E
                    | Hi' Hnone Hm E | t id s Hi' Hnone H1 H2 H3 app E]; simpl.
    - congruence.
    - assert (truthy (env w !! "AUTH_TOKEN") = Some t) by (apply truthy_some; auto).
      congruence.
    - assert (truthy (env w !! "AUTH_TOKEN") = Some t) by (apply truthy_some; auto).
      congruence.
    - split; [|discriminate]. intros (A & B & C). destruct Hm as [H|[H|H]]; congruence.
    - split; [reflexivity|]. intros _. rewrite H1, H2, H3. repeat split; discriminate. }
  split; [exact Hiff|].
  intros Hexit Hc net.
  assert (Hw : snd (initializeClient_begin w) = false).
  { destruct (snd (initializeClient_begin w)); [|reflexivity].
    exfalso. apply Hexit, Hiff. reflexivity. }
  unfold getClient. rewrite (initializeClient_no_wait net w Hw). simpl.
  inversion Ho as [Hi' E | t Hi' Het Htne Hval c E | t text Hi' Het Htne Hval Hc' E
                  | Hi' Hnone Hm E | t id s Hi' Hnone H1 H2 H3 app E];
    rewrite <- E in Hw; simpl in Hw; try congruence.
  - assert (truthy (env w !! "AUTH_TOKEN") = Some t) by (apply truthy_some; auto).
    congruence.
  - assert (truthy (env w !! "AUTH_TOKEN") = Some t) by (apply truthy_some; auto).
    congruence.
  - simpl. unfold getClient_end. simpl. rewrite Hc. split; reflexivity.
Qed.

(** X3.  The start-up check does not validate the token: with any
    non-empty [AUTH_TOKEN] that [validateToken] rejects, [validateEnv]
    returns without a word, whatever else the environment holds, and
    every [getClient] call on the new service then throws the "Not
    authenticated" error without asking the issuer. *)
Theorem validateEnv_accepts_invalid_token
    (e : gmap string jsstring) (token : jsstring) :
  e !! "AUTH_TOKEN" = Some token -> token <> [] ->
  validateToken token = None ->
  validateEnv e = ([], Returns) /\
  forall net w,
    env w = e -> isInitialized (this w) = false -> client (this w) = None ->
    snd (getClient net w) = Throw not_authenticated /\
    this (fst (getClient net w)) = this w /\
    requests (trace (fst (getClient net w))) = requests (trace w).
Proof.
  intros He Hne Hv.
  assert (Ht : truthy (e !! "AUTH_TOKEN") = Some token) by (apply truthy_some; auto).
  split; [unfold validateEnv; rewrite Ht; reflexivity|].
  intros net w <- Hi Hc.
  pose proof (initializeClient_begin_outcome w) as Ho.
  assert (Hw : snd (initializeClient_begin w) = false).
  { inversion Ho; try reflexivity. congruence. }
  unfold getClient. rewrite (initializeClient_no_wait net w Hw). simpl.
  inversion Ho as [Hi' E | t Hi' Het Htne Hval c E | t text Hi' Het Htne Hval Hc' E
                  | Hi' Hnone Hm E | t id s Hi' Hnone H1 H2 H3 app E]; simpl;
    try congruence.
  unfold getClient_end. simpl. rewrite Hc. auto.
Qed.

(** ** Induction on the reachable states *)

Lemma reachable_ind_steps (P : Machine -> Prop) :
  P power_on ->
  (forall m op w t,
     reachable m -> P m -> start op (world m) = (w, t) ->
     P (MkMachine w (calls m ++ [(op, t)]))) ->
  (forall m i op p r w t,
     reachable m -> P m -> calls m !! i = Some (op, Suspended p) ->
     resume op p r (world m) = Some (w, t) ->
     P (MkMachine w (<[i := (op, t)]> (calls m)))) ->
  (forall m e, reachable m -> P m -> P (MkMachine (set_env e (world m)) (calls m))) ->
  forall m, reachable m -> P m.
Proof.
  intros H0 Hcall Hdeliver Henv m Hr.
  induction Hr as [|m a m' Hr IH H]; [exact H0|].
  destruct a as [op|i r|e]; unfold perform in H.
  - destruct (start op (world m)) as [w t] eqn:Es. injection H as <-. eauto.
  - destruct (calls m !! i) as [[op [p|]]|] eqn:Ei; try discriminate.
    destruct (resume op p r (world m)) as [[w t]|] eqn:Er; [|discriminate].
    injection H as <-. eauto.
  - injection H as <-. eauto.
Qed.

(** ** Errors of the issuer and of Graph stay inside *)

Lemma start_settles_as_written op w : settles_as_written (op, snd (start op w)).
Proof.
  destruct op as [| |c]; simpl.
  - destruct (initializeClient_begin w) as [? []]; exact I.
  - destruct (initializeClient_begin w) as [? []]; exact I.
  - destruct (authProvider c); [exact I|].
    destruct (acquireToken_begin w) as [? [e|]]; exact I.
Qed.

Lemma resume_settles_as_written op p r w w' t :
  resume op p r w = Some (w', t) -> settles_as_written (op, t).
Proof.
  intros H.
  destruct op, p, r as [|[[res|]|e]|ok]; simpl in H; try discriminate;
    try (injection H as <- <-; simpl; eauto; fail).
  - destruct (client (this w)) as [c|]; [|injection H as <- <-; simpl; eauto].
    destruct (probe_begin c w) as [w1 []]; injection H as <- <-; simpl; eauto.
  - injection H as <- <-. unfold getClient_end.
    destruct (client (this w)); simpl; eauto.
Qed.

Lemma reachable_settles_as_written m :
  reachable m -> Forall settles_as_written (calls m).
Proof.
  revert m. apply reachable_ind_steps.
  - constructor.
  - intros m op w t _ IH Es. simpl. apply Forall_app. split; [exact IH|].
    constructor; [|constructor].
    pose proof (start_settles_as_written op (world m)) as H.
    rewrite Es in H. exact H.
  - intros m i op p r w t _ IH _ Er. simpl. apply Forall_insert; [exact IH|].
    eapply resume_settles_as_written; eauto.
  - intros m e _ IH. exact IH.
Qed.

(** X4.  Whatever the issuer and Graph answer and however the calls
    interleave, a [getAuthStatus] call never rejects: it settles with a
    status; and a [getClient] call settles with a client or rejects with
    its own "Not authenticated" error, never with an error of the
    issuer. *)
Theorem issuer_errors_stay_inside (m : Machine) (i : nat) (r : Result) :
  reachable m ->
  (calls m !! i = Some (GetAuthStatus, Settled r) ->
   exists s, r = StatusResult s) /\
  (calls m !! i = Some (GetClient, Settled r) ->
   (exists c, r = ClientResult c) \/ r = Rejected not_authenticated) /\
  (forall net e,
     snd (getClient net (world m)) = Throw e -> e = not_authenticated).
Proof.
  intros Hr. pose proof (reachable_settles_as_written m Hr) as Hall.
  rewrite Forall_lookup in Hall. split; [|split].
  - intros H. exact (Hall i _ H).
  - intros H. exact (Hall i _ H).
  - intros net e. unfold getClient, getClient_end. simpl.
    destruct (client (this (initializeClient net (world m)))); congruence.
Qed.

(** ** A failed initialisation is attempted again *)

(** X5.  With the three credentials set and no static token, a service
    that is not initialised asks the issuer once, for the application
    built from the three values; it is initialised, with a new
    client-credential client, exactly when the issuer answers with a
    result.  When the issuer answers [null] or rejects, [getClient]
    throws the "Not authenticated" error, nothing but the MSAL
    application is kept, and the next call asks the issuer again. *)
Theorem failed_initialization_is_retried
    (net : Network) (w : World) (tenantId clientId clientSecret : jsstring) :
  isInitialized (this w) = false ->
  client (this w) = None ->
  truthy (env w !! "AUTH_TOKEN") = None ->
  truthy (env w !! "AZURE_TENANT_ID") = Some tenantId ->
  truthy (env w !! "AZURE_CLIENT_ID") = Some clientId ->
  truthy (env w !! "AZURE_CLIENT_SECRET") = Some clientSecret ->
  let app :=
    Msal.Build clientId clientSecret
      (js "https://login.microsoftonline.com/" ++ tenantId) in
  let asked :=
    TokenRequest app [CLIENT_CREDENTIAL_SCOPE] :: credential_reads ++ trace w in
  let w' := fst (getClient net w) in
  requests (trace w') = S (requests (trace w)) /\
  msalApp (this w') = Some app /\
  env w' = env w /\
  match issuer net asked with
  | IssuerResolves (Some _) =>
      snd (getClient net w) = Normal (MkClient (allocated w) ViaAcquireToken) /\
      isInitialized (this w') = true
  | _ =>
      snd (getClient net w) = Throw not_authenticated /\
      isInitialized (this w') = false /\
      client (this w') = None /\
      snd (initializeClient_begin w') = true
  end.
Proof.
  intros Hi Hc Ht H1 H2 H3 app asked w'.
  assert (Hb : initializeClient_begin w =
    (MkWorld (MkService (client (this w)) false (Some app)) (env w)
       (allocated w) asked, true)).
  { pose proof (initializeClient_begin_outcome w) as Ho.
    inversion Ho as [Hi' E | t Hi' Het Htne Hval c E | t text Hi' Het Htne Hval Hc' E
                    | Hi' Hnone Hm E | t id s Hi' Hnone H1' H2' H3' app' E];
      try congruence.
    - assert (truthy (env w !! "AUTH_TOKEN") = Some t) by (apply truthy_some; auto).
      congruence.
    - assert (truthy (env w !! "AUTH_TOKEN") = Some t) by (apply truthy_some; auto).
      congruence.
    - destruct Hm as [H|[H|H]]; congruence.
    - subst app'. assert (t = tenantId) by congruence.
      assert (id = clientId) by congruence.
      assert (s = clientSecret) by congruence. subst. reflexivity. }
  assert (Hreq : requests asked = S (requests (trace w))) by reflexivity.
  subst w'. unfold getClient, initializeClient. rewrite Hb. simpl fst.
  cbn [trace]. fold asked.
  destruct (issuer net asked) as [[result|]|e]; simpl.
  - rewrite Hc. auto 10.
  - rewrite Hc. repeat split; try assumption; try reflexivity.
    unfold initializeClient_begin; simpl. rewrite Ht, H1, H2, H3. reflexivity.
  - rewrite Hc. repeat split; try assumption; try reflexivity.
    unfold initializeClient_begin; simpl. rewrite Ht, H1, H2, H3. reflexivity.
Qed.

(** ** The token requests *)

Lemma requests_ok_note e w :
  requests_ok w -> well_formed e -> requests_ok (note e w).
Proof. intros [Ht Hm] He. split; [constructor; assumption | exact Hm]. Qed.

Lemma truthy_configured tenantId clientId clientSecret v1 v2 v3 :
  truthy v1 = Some tenantId -> truthy v2 = Some clientId ->
  truthy v3 = Some clientSecret ->
  configured (Msal.Build clientId clientSecret
                (js "https://login.microsoftonline.com/" ++ tenantId)).
Proof.
  intros H1 H2 H3. apply truthy_some in H1 as [_ H1], H2 as [_ H2], H3 as [_ H3].
  split; [exact H2|]. split; [exact H3|]. exists tenantId. auto.
Qed.

Lemma initializeClient_begin_requests_ok w :
  requests_ok w -> requests_ok (fst (initializeClient_begin w)).
Proof.
  intros [Ht Hm]. pose proof (initializeClient_begin_outcome w) as Ho.
  inversion Ho as [Hi' E | t Hi' Het Htne Hval c E | t text Hi' Het Htne Hval Hc' E
                  | Hi' Hnone Hmiss E | t id s Hi' Hnone H1 H2 H3 app E];
    simpl; unfold requests_ok; simpl.
  - auto.
  - split; [repeat constructor; exact Ht | exact Hm].
  - split; [repeat constructor; exact Ht | exact Hm].
  - split; [repeat constructor; exact Ht | exact Hm].
  - pose proof (truthy_configured _ _ _ _ _ _ H1 H2 H3) as Hc.
    split; [|intros app' [= <-]; exact Hc].
    constructor; [split; [exact Hc | reflexivity]|].
    repeat (constructor; [exact I|]). exact Ht.
Qed.

Lemma initializeClient_end_requests_ok r w :
  requests_ok w -> requests_ok (initializeClient_end r w).
Proof.
  intros [Ht Hm]. destruct r as [[res|]|e]; unfold requests_ok; simpl; auto.
  - split; [repeat constructor; exact Ht | exact Hm].
  - split; [repeat constructor; exact Ht | exact Hm].
Qed.

Lemma acquireToken_begin_requests_ok w :
  requests_ok w -> requests_ok (fst (acquireToken_begin w)).
Proof.
  intros H. unfold acquireToken_begin.
  destruct (msalApp (this w)) as [app|] eqn:Ea; simpl; [|exact H].
  apply requests_ok_note; [exact H|].
  split; [apply H; exact Ea | reflexivity].
Qed.

Lemma probe_begin_requests_ok c w :
  requests_ok w -> requests_ok (fst (probe_begin c w)).
Proof.
  intros H. unfold probe_begin. destruct (authProvider c).
  - apply requests_ok_note; [exact H | exact I].
  - pose proof (acquireToken_begin_requests_ok w H) as Ha.
    destruct (acquireToken_begin w) as [w1 [e|]]; exact Ha.
Qed.

Lemma getAuthStatus_end_requests_ok ok w :
  requests_ok w -> requests_ok (fst (getAuthStatus_end ok w)).
Proof.
  intros [Ht Hm]. destruct ok; unfold requests_ok; simpl.
  - split; [repeat constructor; exact Ht | exact Hm].
  - split; [repeat constructor; exact Ht | exact Hm].
Qed.

Lemma start_requests_ok op w :
  requests_ok w -> requests_ok (fst (start op w)).
Proof.
  intros H. destruct op as [| |c]; simpl.
  - pose proof (initializeClient_begin_requests_ok w H) as Hb.
    destruct (initializeClient_begin w) as [w1 waiting]. exact Hb.
  - pose proof (initializeClient_begin_requests_ok w H) as Hb.
    destruct (initializeClient_begin w) as [w1 waiting]. exact Hb.
  - destruct (authProvider c); [exact H|].
    pose proof (acquireToken_begin_requests_ok w H) as Ha.
    destruct (acquireToken_begin w) as [w1 [e|]]; exact Ha.
Qed.

Lemma resume_requests_ok op p r w w' t :
  resume op p r w = Some (w', t) -> requests_ok w -> requests_ok w'.
Proof.
  intros H Hw.
  destruct op, p, r as [|r|ok]; simpl in H; try discriminate.
  - injection H as <- _. apply initializeClient_end_requests_ok. exact Hw.
  - destruct (client (this w)) as [c|]; [|injection H as <- _; exact Hw].
    pose proof (probe_begin_requests_ok c w Hw) as Hp.
    destruct (probe_begin c w) as [w1 []]; injection H as <- _; try exact Hp.
    apply (getAuthStatus_end_requests_ok false). exact Hp.
  - destruct (acquireToken_end r); injection H as <- _.
    + apply requests_ok_note; [exact Hw | exact I].
    + apply (getAuthStatus_end_requests_ok false). exact Hw.
  - injection H as <- _. apply getAuthStatus_end_requests_ok. exact Hw.
  - injection H as <- _. apply initializeClient_end_requests_ok. exact Hw.
  - injection H as <- _. exact Hw.
  - injection H as <- _. exact Hw.
Qed.

Lemma reachable_requests_ok m : reachable m -> requests_ok (world m).
Proof.
  revert m. apply reachable_ind_steps.
  - split; [constructor | discriminate].
  - intros m op w t _ IH Es. simpl.
    pose proof (start_requests_ok op (world m) IH) as H. rewrite Es in H. exact H.
  - intros m i op p r w t _ IH _ Er. simpl. eapply resume_requests_ok; eauto.
  - intros m e _ IH. exact IH.
Qed.

(** X6.  Every token request the service ever sends, in initialisation
    or from the token provider, asks for the single scope
    [https://graph.microsoft.com/.default] and is made by an application
    built from a non-empty client id, a non-empty secret and the login
    authority of a non-empty tenant id. *)
Theorem token_requests_carry_configuration
    (m : Machine) (app : ConfidentialClientApplication) (scopes : list jsstring) :
  reachable m ->
  TokenRequest app scopes ∈ trace (world m) ->
  scopes = [CLIENT_CREDENTIAL_SCOPE] /\
  Msal.clientId app <> [] /\
  Msal.clientSecret app <> [] /\
  exists tenantId,
    tenantId <> [] /\
    Msal.authority app = js "https://login.microsoftonline.com/" ++ tenantId.
Proof.
  intros Hr Hin. apply reachable_requests_ok in Hr as [Hall _].
  rewrite Forall_forall in Hall.
  destruct (Hall _ Hin) as [(H1 & H2 & H3) Hs]. auto.
Qed.

(** ** The client of static-token mode *)

Lemma start_static_token_ok op w :
  static_token_ok (this w) -> static_token_ok (this (fst (start op w))).
Proof.
  intros H. destruct op as [| |c].
  1,2: match goal with |- context [start ?op _] =>
         destruct (start_call_outcome op w ltac:(auto)) as (w' & waiting & Ho & Hs)
       end; rewrite Hs; simpl;
       inversion Ho; subst; simpl; try exact H;
       intros c' token' Hc Hp; simpl in *;
       first [ eapply H; eassumption
             | injection Hc as <-; simpl in Hp; congruence ].
  pose proof (start_GetAccessToken_this c w) as (Ht & _). rewrite Ht. exact H.
Qed.

Lemma resume_static_token_ok op p r w w' t :
  resume op p r w = Some (w', t) ->
  static_token_ok (this w) -> static_token_ok (this w').
Proof.
  intros Hr H.
  apply resume_this in Hr as (_ & _ & [[Ht _] | (_ & Ht & _)]); rewrite Ht;
    [exact H|].
  intros c token [= <-] Hp. discriminate.
Qed.

Lemma reachable_static_token_ok m :
  reachable m -> static_token_ok (this (world m)).
Proof.
  revert m. apply reachable_ind_steps.
  - intros c token H. discriminate.
  - intros m op w t _ IH Es. simpl.
    pose proof (start_static_token_ok op (world m) IH) as H. rewrite Es in H.
    exact H.
  - intros m i op p r w t _ IH _ Er. simpl. eapply resume_static_token_ok; eauto.
  - intros m e _ IH. exact IH.
Qed.

Lemma validateToken_graph token :
  validateToken token = Some token -> graph_token token.
Proof.
  unfold validateToken. intros H. apply validation_valid.
  destruct (validation token); congruence.
Qed.

Lemma getAuthStatus_end_requests ok w :
  requests (trace (fst (getAuthStatus_end ok w))) = requests (trace w).
Proof. destruct ok; reflexivity. Qed.

(** X7.  In every reachable state, the token held by a static-token
    client is one that passes [validateToken], whatever has happened to
    [AUTH_TOKEN] since: the provider hands out that token without any
    request, and [getAuthStatus] probes Graph with it, once per call,
    and never asks the issuer. *)
Theorem static_client_serves_validated_token
    (m : Machine) (c : Client) (token : jsstring) :
  reachable m ->
  client (this (world m)) = Some c ->
  authProvider c = FixedToken token ->
  graph_token token /\
  (forall net w, getAccessToken net c w = (w, Normal token)) /\
  (forall net,
     let w1 := note (GraphGet ORGANIZATION token) (world m) in
     getAuthStatus net (world m) = getAuthStatus_end (graph net (trace w1)) w1 /\
     requests (trace (fst (getAuthStatus net (world m)))) =
       requests (trace (world m))).
Proof.
  intros Hr Hc Hp.
  pose proof (reachable_static_token_ok m Hr c token Hc Hp) as Hv.
  apply reachable_ok in Hr as [Hcons _].
  pose proof (consistent_client_initialized _ _ Hcons Hc) as Hi.
  split; [apply validateToken_graph; exact Hv|]. split.
  - intros net w. unfold getAccessToken. rewrite Hp. reflexivity.
  - intros net w1.
    assert (E : getAuthStatus net (world m) =
                getAuthStatus_end (graph net (trace w1)) w1).
    { unfold getAuthStatus. rewrite initializeClient_initialized by exact Hi.
      rewrite Hc. unfold probe, probe_begin. rewrite Hp. reflexivity. }
    split; [exact E|]. rewrite E, getAuthStatus_end_requests. reflexivity.
Qed.

(** ** The probe of client-credential mode *)

(** X8.  In every reachable state with a client-credential client,
    [getAuthStatus] first asks the issuer for a token and probes Graph
    with the token of that answer; when the issuer answers [null] or
    rejects, Graph is not contacted and the call returns
    [{isAuthenticated: false}] after writing to the console. *)
Theorem probe_asks_issuer_first (net : Network) (m : Machine) (c : Client) :
  reachable m ->
  client (this (world m)) = Some c ->
  authProvider c = ViaAcquireToken ->
  exists app,
    msalApp (this (world m)) = Some app /\
    let w1 := note (TokenRequest app [CLIENT_CREDENTIAL_SCOPE]) (world m) in
    match issuer net (trace w1) with
    | IssuerResolves (Some result) =>
        let w2 := note (GraphGet ORGANIZATION (accessToken result)) w1 in
        getAuthStatus net (world m) = getAuthStatus_end (graph net (trace w2)) w2
    | _ =>
        getAuthStatus net (world m) =
          (note (ConsoleError (js "Error verifying auth:")) w1, unauthenticated)
    end.
Proof.
  intros Hr Hc Hp. apply reachable_ok in Hr as [Hcons _].
  pose proof (consistent_client_initialized _ _ Hcons Hc) as Hi.
  destruct Hcons as [_ Hmsal].
  destruct (msalApp (this (world m))) as [app|] eqn:Ea;
    [|exfalso; exact (Hmsal c Hc Hp eq_refl)].
  exists app. split; [reflexivity|]. intros w1.
  unfold getAuthStatus. rewrite initializeClient_initialized by exact Hi.
  rewrite Hc. unfold probe, probe_begin, acquireToken_begin. rewrite Hp, Ea.
  fold w1. destruct (issuer net (trace w1)) as [[result|]|e]; reflexivity.
Qed.

(** ** What getClient sends *)

Lemma initializeClient_sends net w :
  graph_gets (trace (initializeClient net w)) = graph_gets (trace w) /\
  (requests (trace (initializeClient net w)) <= S (requests (trace w)))%nat.
Proof.
  unfold initializeClient. pose proof (initializeClient_begin_outcome w) as Ho.
  destruct (initializeClient_begin w) as [w' waiting].
  inversion Ho; subst; simpl; try (split; [reflexivity | lia]).
  destruct (issuer net _) as [[res|]|e]; simpl; split; try reflexivity; lia.
Qed.

Lemma getAuthStatus_end_graph_gets ok w :
  graph_gets (trace (fst (getAuthStatus_end ok w))) = graph_gets (trace w).
Proof. destruct ok; reflexivity. Qed.

Lemma probe_sends net c w :
  (graph_gets (trace (fst (probe net c w))) <= S (graph_gets (trace w)))%nat.
Proof.
  unfold probe, probe_begin, acquireToken_begin. destruct (authProvider c); simpl.
  - lia.
  - destruct (msalApp (this w)); simpl; [|lia].
    destruct (acquireToken_end _); simpl; lia.
Qed.

(** X9.  [getClient] never sends a request to Graph, and at most one
    token request (that of an initialisation attempt); [getAuthStatus]
    sends at most one request to Graph, and none at all when
    initialisation leaves the service without a client. *)
Theorem getClient_sends_no_graph_request (net : Network) (w : World) :
  graph_gets (trace (fst (getClient net w))) = graph_gets (trace w) /\
  (requests (trace (fst (getClient net w))) <= S (requests (trace w)))%nat /\
  (graph_gets (trace (fst (getAuthStatus net w))) <= S (graph_gets (trace w)))%nat /\
  (client (this (initializeClient net w)) = None ->
   snd (getAuthStatus net w) = unauthenticated /\
   graph_gets (trace (fst (getAuthStatus net w))) = graph_gets (trace w)).
Proof.
  pose proof (initializeClient_sends net w) as [Hg Hq].
  split; [exact Hg|]. split; [exact Hq|]. unfold getAuthStatus.
  destruct (client (this (initializeClient net w))) as [c|]; split; simpl;
    try discriminate; auto; try lia.
  pose proof (probe_sends net c (initializeClient net w)) as Hp.
  destruct (probe net c (initializeClient net w)) as [w1 ok]. simpl in Hp.
  rewrite getAuthStatus_end_graph_gets. lia.
Qed.

(** ** Initialisation is never undone *)

Lemma perform_keeps_initialized a m m' :
  perform a m = Some m' ->
  (isInitialized (this (world m)) = true ->
   isInitialized (this (world m')) = true) /\
  (msalApp (this (world m)) <> None -> msalApp (this (world m')) <> None) /\
  (allocated (world m) <= allocated (world m'))%nat.
Proof.
  intros H. destruct a as [op|i r|e]; unfold perform in H.
  - destruct op as [| |c].
    1,2: match type of H with context [start ?op _] =>
           destruct (start_call_outcome op (world m) ltac:(auto))
             as (w' & waiting & Ho & Hs)
         end; rewrite Hs in H; injection H as <-; simpl;
         inversion Ho; subst; simpl;
         (split; [congruence|]); (split; [auto; discriminate | lia]).
    pose proof (start_GetAccessToken_this c (world m)) as (Ht & _ & Ha & _).
    destruct (start (GetAccessToken c) (world m)) as [w' t]. simpl in *.
    injection H as <-. simpl. rewrite Ht, Ha. auto.
  - destruct (calls m !! i) as [[op [p|]]|] eqn:Ei; try discriminate.
    destruct (resume op p r (world m)) as [[w' t]|] eqn:Er; [|discriminate].
    injection H as <-. simpl.
    apply resume_this in Er as (_ & _ & [[Ht Ha] | (_ & Ht & Ha)]);
      rewrite Ht, Ha; simpl; auto.
  - injection H as <-. simpl. auto.
Qed.

(** X10.  Nothing resets the service: along any interleaving of calls,
    answers and changes of the environment, a flag that is set stays
    set, a client that is installed is never removed (only replaced),
    the MSAL application is never cleared, and clients are only ever
    added. *)
Theorem initialization_is_never_undone
    (acts : list Action) (m m' : Machine) :
  perform_all acts m = Some m' ->
  (isInitialized (this (world m)) = true ->
   isInitialized (this (world m')) = true) /\
  (client (this (world m)) <> None -> client (this (world m')) <> None) /\
  (msalApp (this (world m)) <> None -> msalApp (this (world m')) <> None) /\
  (allocated (world m) <= allocated (world m'))%nat.
Proof.
  revert m. induction acts as [|a acts IH]; intros m H; simpl in H.
  - injection H as <-. auto.
  - destruct (perform a m) as [m1|] eqn:E; [|discriminate].
    destruct (perform_keeps_initialized a m m1 E) as (H1 & H2 & H3).
    pose proof (fun Hc => perform_keeps_client a m m1 Hc E) as H4.
    destruct (IH m1 H) as (I1 & I2 & I3 & I4).
    split; [auto|]. split; [auto|]. split; [auto | lia].
Qed.

(** ** Start-up with a static token *)

Lemma graph_token_nonempty token : graph_token token -> token <> [].
Proof.
  intros (a & p & b & _ & _ & _ & (-> & _) & _). destruct a; discriminate.
Qed.

(** X11.  With a token in [AUTH_TOKEN] that passes [validateToken],
    whatever else the environment holds: [validateEnv] returns, and the
    first [getClient] call returns a new client whose provider hands out
    that very token, with the service initialised and without any
    request to the issuer. *)
Theorem valid_static_token_starts_up
    (e : gmap string jsstring) (token : jsstring) :
  e !! "AUTH_TOKEN" = Some token ->
  graph_token token ->
  validateEnv e = ([], Returns) /\
  forall net w,
    env w = e -> isInitialized (this w) = false ->
    snd (getClient net w) =
      Normal (MkClient (allocated w) (FixedToken token)) /\
    isInitialized (this (fst (getClient net w))) = true /\
    requests (trace (fst (getClient net w))) = requests (trace w) /\
    (forall net' w', getAccessToken net' (MkClient (allocated w) (FixedToken token)) w'
                     = (w', Normal token)).
Proof.
  intros He Hg. pose proof (graph_token_nonempty _ Hg) as Hne.
  assert (Ht : truthy (e !! "AUTH_TOKEN") = Some token) by (apply truthy_some; auto).
  split; [unfold validateEnv; rewrite Ht; reflexivity|].
  intros net w <- Hi.
  pose proof (validateToken_valid _ Hg) as Hv.
  pose proof (initializeClient_begin_outcome w) as Ho.
  assert (Hw : snd (initializeClient_begin w) = false).
  { inversion Ho; try reflexivity. congruence. }
  unfold getClient. rewrite (initializeClient_no_wait net w Hw). simpl.
  inversion Ho as [Hi' E | t Hi' Het Htne Hval c E | t text Hi' Het Htne Hval Hc' E
                  | Hi' Hnone Hm E | t id s Hi' Hnone H1 H2 H3 app E]; simpl;
    try congruence.
  assert (t = token) by congruence. subst t c.
  unfold getClient_end. simpl. auto.
Qed.

(** ** The alphabet of the payload segment *)

(** [atob] rejects a text with a code unit that is neither of the base64
    alphabet, nor white space, nor the padding sign. *)
Lemma atob_outside_alphabet p c :
  c ∈ p -> base64_value c = None -> is_ascii_whitespace c = false -> c <> 61 ->
  atob p = None.
Proof.
  intros Hin Hv Hw Hc. unfold atob.
  set (data := filter (fun c => is_ascii_whitespace c = false) p).
  assert (Hd : c ∈ strip_padding data).
  { apply strip_padding_keeps; [exact Hc|].
    apply list_elem_of_filter. split; assumption. }
  destruct (N.of_nat (length (strip_padding data)) mod 4 =? 1); [reflexivity|].
  destruct (sextets (strip_padding data)) as [vs|] eqn:Es; [|reflexivity].
  destruct (sextets_alphabet _ _ _ Es Hd Hv).
Qed.

(** X12.  [validateToken] decodes the middle segment with [atob], whose
    alphabet is that of base64, not of base64url: a token whose middle
    segment contains a code unit outside that alphabet that is neither
    white space nor [=] -- in particular the [-] or [_] of base64url --
    is rejected as unparsable, whatever it would decode to. *)
Theorem validateToken_rejects_base64url (token a p b : jsstring) (c : N) :
  split 46 token = [a; p; b] ->
  c ∈ p ->
  base64_value c = None -> is_ascii_whitespace c = false -> c <> 61 ->
  validateToken token = None /\
  validateToken_console token =
    Some (js "Invalid JWT token: Failed to parse payload") /\
  base64_value 45 = None /\ base64_value 95 = None.
Proof.
  intros Hs Hin Hv Hw Hc.
  assert (E : validation token = ParseFailure).
  { unfold validation. rewrite Hs. simpl.
    rewrite (atob_outside_alphabet p c Hin Hv Hw Hc). reflexivity. }
  unfold validateToken, validateToken_console. rewrite E. auto.
Qed.

(** ** Padding of the payload segment *)

Lemma strip_padding_unpadded data :
  N.of_nat (length data) mod 4 <> 0 -> strip_padding data = data.
Proof.
  intros H. unfold strip_padding.
  destruct (N.eqb_spec (N.of_nat (length data) mod 4) 0); [contradiction|].
  reflexivity.
Qed.

Lemma length_mod_succ (data extra : jsstring) (k : N) :
  N.of_nat (length data) mod 4 = k ->
  N.of_nat (length (data ++ extra)) mod 4 = (k + N.of_nat (length extra)) mod 4.
Proof.
  intros <-. rewrite length_app, Nat2N.inj_add.
  rewrite N.Div0.add_mod_idemp_l. reflexivity.
Qed.

Lemma strip_padding_one data :
  N.of_nat (length data) mod 4 = 3 -> 61 ∉ data ->
  strip_padding (data ++ [61]) = data.
Proof.
  intros Hn Hp. unfold strip_padding.
  rewrite (length_mod_succ data [61] 3 Hn). simpl.
  rewrite rev_app_distr. simpl.
  destruct (rev data) as [|y r] eqn:Er.
  - apply (f_equal (@rev N)) in Er. rewrite rev_involutive in Er. subst data.
    discriminate.
  - destruct (N.eqb_spec y 61) as [->|_].
    + exfalso. apply Hp. apply list_elem_of_In, in_rev. rewrite Er. left.
      reflexivity.
    + rewrite <- Er. apply rev_involutive.
Qed.

Lemma strip_padding_two data :
  N.of_nat (length data) mod 4 = 2 ->
  strip_padding (data ++ [61; 61]) = data.
Proof.
  intros Hn. unfold strip_padding.
  rewrite (length_mod_succ data [61; 61] 2 Hn). simpl.
  rewrite rev_app_distr. simpl. apply rev_involutive.
Qed.

Lemma filter_padding p pad :
  Forall (fun c => c = 61) pad ->
  filter (fun c => is_ascii_whitespace c = false) (p ++ pad) =
  filter (fun c => is_ascii_whitespace c = false) p ++ pad.
Proof.
  intros Hpad. rewrite filter_app. f_equal.
  induction Hpad as [|c pad -> _ IH]; [reflexivity|].
  rewrite filter_cons_True by reflexivity. rewrite IH. reflexivity.
Qed.

Lemma atob_padding p pad :
  61 ∉ p ->
  (pad = [61] /\
   N.of_nat (length (filter (fun c => is_ascii_whitespace c = false) p)) mod 4 = 3) \/
  (pad = [61; 61] /\
   N.of_nat (length (filter (fun c => is_ascii_whitespace c = false) p)) mod 4 = 2) ->
  atob (p ++ pad) = atob p.
Proof.
  intros Hp Hpad. unfold atob.
  set (data := filter (fun c => is_ascii_whitespace c = false) p) in *.
  assert (Hd : 61 ∉ data).
  { intros H. apply list_elem_of_filter in H as [_ H]. contradiction. }
  destruct Hpad as [[-> Hn] | [-> Hn]].
  - rewrite filter_padding by (repeat constructor). fold data.
    rewrite (strip_padding_one data Hn Hd).
    rewrite strip_padding_unpadded by (rewrite Hn; discriminate). reflexivity.
  - rewrite filter_padding by (repeat constructor). fold data.
    rewrite (strip_padding_two data Hn).
    rewrite strip_padding_unpadded by (rewrite Hn; discriminate). reflexivity.
Qed.

Lemma validation_segments a p b :
  46 ∉ a -> 46 ∉ p -> 46 ∉ b ->
  validation (a ++ 46 :: p ++ 46 :: b) =
  match atob p with
  | None => ParseFailure
  | Some decoded =>
      match JSON_parse decoded with
      | None => ParseFailure
      | Some payload =>
          match payload_aud payload with
          | None => ParseFailure
          | Some aud =>
              if includes (audiences aud) GRAPH_AUDIENCE then Valid
              else NotGraphToken
          end
      end
  end.
Proof.
  intros Ha Hp Hb. unfold validation.
  assert (E : split 46 (a ++ 46 :: p ++ 46 :: b) = [a; p; b])
    by (apply split_three; auto).
  rewrite E. reflexivity.
Qed.

(** X13.  The padding of the middle segment is optional: a token whose
    middle segment has no [=] and, white space apart, a length of 2 or 3
    modulo 4 is judged by [validateToken] exactly as the token with the
    one or two [=] signs appended to that segment. *)
Theorem validateToken_padding_optional (a p b pad : jsstring) :
  46 ∉ a -> 46 ∉ p -> 46 ∉ b -> 61 ∉ p ->
  (pad = [61] /\
   N.of_nat (length (filter (fun c => is_ascii_whitespace c = false) p)) mod 4 = 3) \/
  (pad = [61; 61] /\
   N.of_nat (length (filter (fun c => is_ascii_whitespace c = false) p)) mod 4 = 2) ->
  validation (a ++ 46 :: (p ++ pad) ++ 46 :: b) =
  validation (a ++ 46 :: p ++ 46 :: b) /\
  (validateToken (a ++ 46 :: (p ++ pad) ++ 46 :: b) = None <->
   validateToken (a ++ 46 :: p ++ 46 :: b) = None).
Proof.
  intros Ha Hp Hb Hq Hpad.
  assert (Hpp : 46 ∉ p ++ pad).
  { intros H. apply elem_of_app in H as [H|H]; [contradiction|].
    destruct Hpad as [[-> _] | [-> _]];
      repeat (apply elem_of_cons in H as [H|H]; [discriminate|]);
      apply not_elem_of_nil in H; contradiction. }
  assert (E : validation (a ++ 46 :: (p ++ pad) ++ 46 :: b) =
              validation (a ++ 46 :: p ++ 46 :: b)).
  { rewrite (validation_segments a (p ++ pad) b Ha Hpp Hb).
    rewrite (validation_segments a p b Ha Hp Hb).
    rewrite (atob_padding p pad Hq Hpad). reflexivity. }
  split; [exact E|]. unfold validateToken. rewrite E.
  destruct (validation (a ++ 46 :: p ++ 46 :: b)); split; congruence.
Qed.

(** ** delete_channel_message *)

(** X14.  When the service has no client after initialisation,
    [delete_channel_message] sends nothing to Graph: it returns, marked
    as an error, the text "Failed to delete message:" (or "reply:",
    when a non-empty [replyId] was given) followed by the "Not
    authenticated" message of [getClient]. *)
Theorem delete_channel_message_unauthenticated
    (net : Network) (api : GraphApi)
    (teamId channelId messageId : jsstring) (replyId : option jsstring)
    (s : Session) :
  client (this (initializeClient net (service s))) = None ->
  let r := delete_channel_message net api teamId channelId messageId replyId s in
  sent (fst r) = sent s /\
  isError (snd r) = true /\
  text (snd r) =
    10060 :: js " Failed to delete " ++
    match truthy replyId with
    | Some _ => js "reply"
    | None => js "message"
    end ++ js ": " ++ message not_authenticated /\
  names_the_variables (MkError (text (snd r))).
Proof.
  intros Hc r. subst r. unfold delete_channel_message, getClient, getClient_end.
  rewrite Hc. simpl. split; [reflexivity|]. split; [reflexivity|].
  split; [reflexivity|].
  destruct (truthy replyId); repeat split; vm_compute; reflexivity.
Qed.

Lemma api_call_sent net api c m endpoint content s :
  (sent (fst (api_call net api c m endpoint content s)) = sent s /\
   exists e, snd (api_call net api c m endpoint content s) =
             Rejects (provider_failed api e)) \/
  (exists token,
     sent (fst (api_call net api c m endpoint content s)) =
       MkRequest m endpoint token content :: sent s /\
     snd (api_call net api c m endpoint content s) =
       respond api (MkRequest m endpoint token content :: sent s)).
Proof.
  unfold api_call.
  destruct (getAccessToken net c (service s)) as [w [token|e]]; simpl; eauto.
Qed.

(** X15.  [delete_channel_message] sends at most one request, a POST
    with an empty object to the [softDelete] path of the message, or of
    the reply when a non-empty [replyId] is given; it reports success
    exactly when that request was sent and resolved.  An empty [replyId]
    is treated as none: the message itself is deleted. *)
Theorem delete_channel_message_one_request
    (net : Network) (api : GraphApi)
    (teamId channelId messageId : jsstring) (replyId : option jsstring)
    (s : Session) :
  let r := delete_channel_message net api teamId channelId messageId replyId s in
  let endpoint := softDelete_endpoint teamId channelId messageId replyId in
  (sent (fst r) = sent s \/
   exists token,
     sent (fst r) = MkRequest POST endpoint token (Some (JObject [])) :: sent s) /\
  (isError (snd r) = false <->
   exists token value,
     sent (fst r) = MkRequest POST endpoint token (Some (JObject [])) :: sent s /\
     respond api (sent (fst r)) = Resolves value) /\
  delete_channel_message net api teamId channelId messageId (Some []) s =
  delete_channel_message net api teamId channelId messageId None s.
Proof.
  intros r endpoint. split; [|split; [|reflexivity]].
  - subst r. unfold delete_channel_message.
    destruct (getClient net (service s)) as [w [c|e]]; simpl; [|auto].
    fold endpoint.
    destruct (api_call_sent net api c POST endpoint (Some (JObject []))
                (MkSession w (sent s))) as [[Hs _] | (token & Hs & _)];
      destruct (api_call net api c POST endpoint (Some (JObject []))
                  (MkSession w (sent s))) as [s' [value|error]];
      simpl in *; eauto.
  - subst r. unfold delete_channel_message.
    destruct (getClient net (service s)) as [w [c|e]]; simpl.
    + fold endpoint.
      destruct (api_call_sent net api c POST endpoint (Some (JObject []))
                  (MkSession w (sent s))) as [[Hs [e He]] | (token & Hs & Ha)];
        destruct (api_call net api c POST endpoint (Some (JObject []))
                    (MkSession w (sent s))) as [s' [value|error]];
        simpl in *; try discriminate.
      * split; [discriminate|]. intros (token & value & Hsent & _).
        rewrite Hs in Hsent. apply (f_equal (@length Request)) in Hsent.
        simpl in Hsent. lia.
      * split; [intros _|reflexivity]. exists token, value.
        split; [exact Hs|]. rewrite Hs. symmetry. exact Ha.
      * split; [discriminate|]. intros (token' & value & Hsent & Hr).
        rewrite Hs in Hsent. injection Hsent as <-.
        rewrite Hs, <- Ha in Hr. discriminate.
    + split; [discriminate|]. intros (token & value & Hsent & _).
      apply (f_equal (@length Request)) in Hsent. simpl in Hsent. lia.
Qed.

(** X16.  In client-credential mode a tool call costs a token request:
    in every reachable state with a client-credential client,
    [delete_channel_message] first asks the issuer for a token and sends
    its POST with the token of that answer; when the issuer answers
    [null] or rejects, nothing is sent to Graph and the result is the
    error text made from what the client throws for the failure of its
    provider. *)
Theorem delete_channel_message_asks_issuer
    (net : Network) (api : GraphApi) (m : Machine) (c : Client)
    (teamId channelId messageId : jsstring) (replyId : option jsstring)
    (requests : list Request) :
  reachable m ->
  client (this (world m)) = Some c ->
  authProvider c = ViaAcquireToken ->
  exists app,
    msalApp (this (world m)) = Some app /\
    let w1 := note (TokenRequest app [CLIENT_CREDENTIAL_SCOPE]) (world m) in
    let endpoint := softDelete_endpoint teamId channelId messageId replyId in
    let r := delete_channel_message net api teamId channelId messageId replyId
               (MkSession (world m) requests) in
    match issuer net (trace w1) with
    | IssuerResolves (Some result) =>
        fst r =
          MkSession w1
            (MkRequest POST endpoint (accessToken result) (Some (JObject []))
               :: requests)
    | IssuerResolves None =>
        r = (MkSession w1 requests,
             delete_failed replyId (provider_failed api acquire_failed))
    | IssuerRejects e =>
        r = (MkSession w1 requests,
             delete_failed replyId (provider_failed api e))
    end.
Proof.
  intros Hr Hc Hp. apply reachable_ok in Hr as [Hcons _].
  pose proof (consistent_client_initialized _ _ Hcons Hc) as Hi.
  destruct Hcons as [_ Hmsal].
  destruct (msalApp (this (world m))) as [app|] eqn:Ea;
    [|exfalso; exact (Hmsal c Hc Hp eq_refl)].
  exists app. split; [reflexivity|]. intros w1 endpoint r. subst r.
  unfold delete_channel_message, getClient. simpl service.
  rewrite initializeClient_initialized by exact Hi.
  unfold getClient_end. rewrite Hc. fold endpoint.
  unfold api_call, getAccessToken, acquireToken, acquireToken_begin. simpl.
  rewrite Hp, Ea. simpl.
  change (issuer net (trace w1))
    with (issuer net (TokenRequest app [CLIENT_CREDENTIAL_SCOPE] :: trace (world m))).
  destruct (issuer net (TokenRequest app [CLIENT_CREDENTIAL_SCOPE] :: trace (world m)))
    as [[result|]|e]; simpl; try reflexivity.
  destruct (respond api _); reflexivity.
Qed.

(** ** The path a hosted content is saved to *)

(** X17.  After the replacement of backslash pairs, a path counts as a
    UNC path exactly when the [savePath] given starts with three
    backslashes or with two slashes: a path written with the two leading
    backslashes of a UNC path is not recognised as one, and is resolved
    like a local path. *)
Theorem isUncPath_three_backslashes (savePath : jsstring) :
  isUncPath savePath =
    starts_with [92; 92; 92] savePath || starts_with [47; 47] savePath.
Proof.
  unfold isUncPath, normalizedPath.
  destruct savePath as [|c [|d [|x [|y r]]]]; cbn -[N.eqb];
    repeat match goal with
           | |- context [?a =? ?b] =>
               destruct (N.eqb_spec a b); subst; cbn -[N.eqb]; try lia
           end;
    reflexivity.
Qed.

(** ** The TEAM_IDS filter of list_teams *)

Lemma trimStart_head s c :
  head (trimStart s) = Some c -> is_white_space c = false.
Proof.
  induction s as [|d r IH]; simpl; [discriminate|].
  destruct (is_white_space d) eqn:E; [exact IH|]. simpl. congruence.
Qed.

Lemma trimStart_elem s c : c ∈ trimStart s -> c ∈ s.
Proof.
  induction s as [|d r IH]; simpl; [auto|].
  destruct (is_white_space d); [|auto]. intros H. apply elem_of_cons. auto.
Qed.

Lemma trimStart_id s :
  (forall c, head s = Some c -> is_white_space c = false) -> trimStart s = s.
Proof.
  destruct s as [|d r]; [reflexivity|]. simpl. intros H.
  rewrite (H d eq_refl). reflexivity.
Qed.

Lemma trimStart_snoc s c :
  is_white_space c = false -> trimStart (s ++ [c]) = trimStart s ++ [c].
Proof.
  intros Hc. induction s as [|d r IH]; simpl; [rewrite Hc; reflexivity|].
  destruct (is_white_space d); [exact IH | reflexivity].
Qed.

Lemma head_rev (s : jsstring) : head (rev s) = last s.
Proof.
  induction s as [|c r IH] using rev_ind; [reflexivity|].
  rewrite rev_app_distr, last_snoc. reflexivity.
Qed.

Lemma last_rev (s : jsstring) : last (rev s) = head s.
Proof. rewrite <- head_rev, rev_involutive. reflexivity. Qed.

Lemma trimEnd_cons c s :
  is_white_space c = false -> trimEnd (c :: s) = c :: trimEnd s.
Proof.
  intros Hc. unfold trimEnd. simpl. rewrite (trimStart_snoc _ _ Hc).
  rewrite rev_app_distr. reflexivity.
Qed.

Lemma trim_trimmed s : trimmed (trim s).
Proof.
  unfold trim. split.
  - destruct (trimStart s) as [|d r] eqn:E; [discriminate|].
    assert (Hd : is_white_space d = false)
      by (apply (trimStart_head s); rewrite E; reflexivity).
    rewrite (trimEnd_cons _ _ Hd). simpl. congruence.
  - intros c. unfold trimEnd. rewrite last_rev. apply trimStart_head.
Qed.

Lemma elem_of_rev (s : jsstring) c : c ∈ rev s -> c ∈ s.
Proof. intros H. apply list_elem_of_In, in_rev, list_elem_of_In. exact H. Qed.

Lemma trim_elem s c : c ∈ trim s -> c ∈ s.
Proof.
  unfold trim, trimEnd. intros H.
  apply trimStart_elem, elem_of_rev, trimStart_elem, elem_of_rev. exact H.
Qed.

Lemma trim_id s : trimmed s -> trim s = s.
Proof.
  intros [Hh Hl]. unfold trim, trimEnd. rewrite (trimStart_id s Hh).
  rewrite trimStart_id; [apply rev_involutive|].
  intros c. rewrite head_rev. apply Hl.
Qed.

(** X18.  Whatever [TEAM_IDS] holds, the ids [list_teams] asks Graph
    for are non-empty, contain no comma and have no white space at
    either end: empty pieces (a doubled or trailing comma, blanks) are
    dropped, and each id is the trimmed form of a piece between two
    commas. *)
Theorem teamIds_plain (teamIdsEnv : jsstring) :
  Forall plain_id (teamIds teamIdsEnv) /\
  (forall id, id ∈ teamIds teamIdsEnv ->
              exists piece, piece ∈ split 44 teamIdsEnv /\ id = trim piece) /\
  (length (teamIds teamIdsEnv) <= length (split 44 teamIdsEnv))%nat.
Proof.
  unfold teamIds. split; [|split].
  - apply Forall_forall. intros id Hin.
    apply list_elem_of_filter in Hin as [Hne Hin].
    apply list_elem_of_fmap in Hin as (piece & -> & Hin).
    split; [exact Hne|]. split; [|apply trim_trimmed].
    intros Hc. apply trim_elem in Hc.
    pose proof (split_pieces 44 teamIdsEnv) as Hp.
    rewrite Forall_forall in Hp. exact (Hp piece Hin Hc).
  - intros id Hin. apply list_elem_of_filter in Hin as [_ Hin].
    apply list_elem_of_fmap in Hin as (piece & -> & Hin). eauto.
  - etransitivity; [apply length_filter|]. rewrite length_map. reflexivity.
Qed.

Lemma split_join sep pieces :
  pieces <> [] -> Forall (fun piece => sep ∉ piece) pieces ->
  split sep (join sep pieces) = pieces.
Proof.
  intros Hne Hall. induction Hall as [|p rest Hp Hrest IH]; [congruence|].
  destruct rest as [|q rest].
  - simpl. apply split_free. exact Hp.
  - change (join sep (p :: q :: rest)) with (p ++ sep :: join sep (q :: rest)).
    rewrite (split_at sep p _ Hp). rewrite IH by discriminate. reflexivity.
Qed.

(** X19.  Round trip: a list of ids, each non-empty, without a comma and
    without white space around it, written into [TEAM_IDS] with commas
    between them, is read back as that list, in that order. *)
Theorem teamIds_join (ids : list jsstring) :
  Forall plain_id ids -> teamIds (join 44 ids) = ids.
Proof.
  intros Hall. unfold teamIds. destruct ids as [|id0 rest]; [reflexivity|].
  rewrite split_join; [|discriminate|].
  - induction Hall as [|id ids (Hne & _ & Ht) _ IH]; [reflexivity|].
    simpl. rewrite (trim_id id Ht). rewrite filter_cons_True by exact Hne.
    rewrite IH. reflexivity.
  - eapply Forall_impl; [exact Hall|]. intros id (_ & Hc & _). exact Hc.
Qed.

(** ** The loop of list_teams *)

Lemma api_call_static net api c token m endpoint content s :
  authProvider c = FixedToken token ->
  api_call net api c m endpoint content s =
  (MkSession (service s) (MkRequest m endpoint token content :: sent s),
   respond api (MkRequest m endpoint token content :: sent s)).
Proof. intros Hp. unfold api_call, getAccessToken. rewrite Hp. reflexivity. Qed.

Lemma fetch_teams_cons_static net api c token id ids teamList s :
  authProvider c = FixedToken token ->
  fetch_teams net api c (id :: ids) teamList s =
  let request := MkRequest GET (js "/teams/" ++ id) token None in
  let s1 := MkSession (service s) (request :: sent s) in
  match respond api (request :: sent s) with
  | Resolves team =>
      match summary team with
      | Some t => fetch_teams net api c ids (teamList ++ [t]) s1
      | None => fetch_teams net api c ids teamList (fetch_failed id s1)
      end
  | Rejects _ => fetch_teams net api c ids teamList (fetch_failed id s1)
  end.
Proof.
  intros Hp. simpl. rewrite (api_call_static net api c token _ _ _ _ Hp).
  reflexivity.
Qed.

Lemma fetch_teams_static net api c token ids teamList s :
  authProvider c = FixedToken token ->
  sent (fst (fetch_teams net api c ids teamList s)) =
    rev (map (fun id => MkRequest GET (js "/teams/" ++ id) token None) ids) ++ sent s /\
  this (service (fst (fetch_teams net api c ids teamList s))) = this (service s) /\
  exists more,
    snd (fetch_teams net api c ids teamList s) = teamList ++ more /\
    (length more <= length ids)%nat.
Proof.
  intros Hp. revert teamList s. induction ids as [|id ids IH]; intros teamList s.
  - simpl. split; [reflexivity|]. split; [reflexivity|]. exists [].
    rewrite app_nil_r. auto.
  - rewrite (fetch_teams_cons_static net api c token id ids teamList s Hp).
    cbv zeta.
    set (request := MkRequest GET (js "/teams/" ++ id) token None).
    assert (Hstep : forall tl s',
      sent s' = request :: sent s -> this (service s') = this (service s) ->
      (exists more, tl = teamList ++ more /\ (length more <= 1)%nat) ->
      sent (fst (fetch_teams net api c ids tl s')) =
        rev (map (fun id => MkRequest GET (js "/teams/" ++ id) token None)
               (id :: ids)) ++ sent s /\
      this (service (fst (fetch_teams net api c ids tl s'))) = this (service s) /\
      exists more,
        snd (fetch_teams net api c ids tl s') = teamList ++ more /\
        (length more <= length (id :: ids))%nat).
    { intros tl s' Hs Ht (more0 & -> & Hm).
      destruct (IH (teamList ++ more0) s') as (H1 & H2 & more & H3 & H4).
      split; [|split].
      - rewrite H1, Hs. simpl. rewrite <- app_assoc. reflexivity.
      - rewrite H2. exact Ht.
      - exists (more0 ++ more). rewrite H3, app_assoc. split; [reflexivity|].
        rewrite length_app. simpl. lia. }
    destruct (respond api (request :: sent s)) as [team|error].
    + destruct (summary team) as [t|].
      * apply Hstep; [reflexivity | reflexivity|]. exists [t]. auto.
      * apply Hstep; [reflexivity | reflexivity|]. exists [].
        rewrite app_nil_r. auto.
    + apply Hstep; [reflexivity | reflexivity|]. exists [].
      rewrite app_nil_r. auto.
Qed.

(** X20.  With the [TEAM_IDS] filter and a static-token client,
    [list_teams] sends exactly one GET per id, to [/teams/<id>], in the
    order of the ids and with the client's token, whatever Graph
    answers: a team that cannot be fetched is left out and the loop goes
    on.  The list has at most one entry per id, and when no id is left
    (only commas and blanks) nothing is sent. *)
Theorem list_teams_filter_requests
    (net : Network) (api : GraphApi) (c : Client) (token teamIdsEnv : jsstring)
    (s : Session) :
  authProvider c = FixedToken token ->
  let r := fetch_teams net api c (teamIds teamIdsEnv) [] s in
  sent (fst r) =
    rev (map (fun id => MkRequest GET (js "/teams/" ++ id) token None)
           (teamIds teamIdsEnv)) ++ sent s /\
  this (service (fst r)) = this (service s) /\
  (length (snd r) <= length (teamIds teamIdsEnv))%nat /\
  (teamIds teamIdsEnv = [] -> r = (s, [])).
Proof.
  intros Hp r. subst r.
  destruct (fetch_teams_static net api c token (teamIds teamIdsEnv) [] s Hp)
    as (H1 & H2 & more & H3 & H4).
  split; [exact H1|]. split; [exact H2|]. split.
  - rewrite H3. simpl. exact H4.
  - intros ->. reflexivity.
Qed.

(** * Scenarios *)

(** ** The runtime *)

Example split_examples :
  split 46 (js "a.b.c") = [js "a"; js "b"; js "c"] /\
  split 46 (js "invalid-token") = [js "invalid-token"] /\
  split 46 (js "..") = [[]; []; []] /\
  split 46 [] = [[]].
Proof. conjuncts; evaluate. Qed.

Example atob_examples :
  atob (js "aGVsbG8=") = Some (js "hello") /\
  atob (js "aGVsbG8") = Some (js "hello") /\
  atob (js " aGVs bG8= ") = Some (js "hello") /\
  atob (js "YQ==") = Some (js "a") /\
  atob (js "YR") = Some (js "a") /\
  atob (js "/+8=") = Some [255; 239] /\
  atob [] = Some [] /\
  atob (js "aGVsb") = None /\
  atob (js "aGV=bG8=") = None /\
  atob (js "YQ=") = None /\
  atob (js "e-_") = None.
Proof. conjuncts; evaluate. Qed.

(** JSON texts, written with an apostrophe for the quotation mark. *)
Example JSON_parse_examples :
  map (fun text => JSON_parse (json_text text))
    [ "{'aud': ['x', 1.5e3, true, null], 'aud': {}}";
      "'aud\n'";
      " [ ] ";
      "-0.0";
      "01"; "1."; "[1,]"; "{'a':1,}"; "{'a' 1}"; "nul"; "'a"; "[1 2]"; EmptyString ]
  = [ Some (JObject [(js "aud", JArray [JString (js "x"); JNumber (js "1.5e3");
                                         JBool true; JNull]);
                     (js "aud", JObject [])]);
      Some (JString (js "aud" ++ [10]));
      Some (JArray []);
      Some (JNumber (js "-0.0"));
      None; None; None; None; None; None; None; None; None ].
Proof. vm_compute. reflexivity. Qed.

(** ** The service *)

Example scenario_credentials :
  getAuthStatus obliging (set_env credentials boot) =
  (MkWorld (MkService (Some client0) true (Some msal_t)) credentials 1
     [EnvRead "AZURE_CLIENT_ID"; EnvRead "AZURE_TENANT_ID";
      GraphGet ORGANIZATION (js "mock-access-token"); request_t;
      ClientCreated client0; request_t;
      EnvRead "AZURE_CLIENT_SECRET"; EnvRead "AZURE_CLIENT_ID";
      EnvRead "AZURE_TENANT_ID"; EnvRead "AUTH_TOKEN"],
   Status.Build true (Some (js "t")) (Some (js "c"))).
Proof. vm_compute. reflexivity. Qed.

Example scenario_static_token :
  getAuthStatus obliging (set_env (<["AUTH_TOKEN" := graph_jwt]> credentials) boot) =
  (MkWorld (MkService (Some (MkClient 0 (FixedToken graph_jwt))) true None)
     (<["AUTH_TOKEN" := graph_jwt]> credentials) 1
     [EnvRead "AZURE_CLIENT_ID"; EnvRead "AZURE_TENANT_ID";
      GraphGet ORGANIZATION graph_jwt;
      ClientCreated (MkClient 0 (FixedToken graph_jwt)); EnvRead "AUTH_TOKEN"],
   Status.Build true (Some (js "t")) (Some (js "c"))).
Proof. vm_compute. reflexivity. Qed.

Example scenario_no_configuration :
  getClient obliging boot =
  (MkWorld fresh ∅ 0
     (ConsoleError missing_variables :: credential_reads),
   Throw not_authenticated).
Proof. vm_compute. reflexivity. Qed.

Example after_start_up :
  after start_up =
  MkMachine
    (MkWorld (MkService (Some client0) true (Some msal_t)) credentials 1
       [ClientCreated client0; request_t; EnvRead "AZURE_CLIENT_SECRET";
        EnvRead "AZURE_CLIENT_ID"; EnvRead "AZURE_TENANT_ID";
        EnvRead "AUTH_TOKEN"])
    [(GetClient, Settled (ClientResult client0))].
Proof. vm_compute. reflexivity. Qed.

(** Three [getAuthStatus] calls made at once, as in the test suite:
    each one initialises, each one is told it is authenticated. *)
Example three_calls_at_once :
  calls (after ([SetEnv credentials; Call GetAuthStatus; Call GetAuthStatus;
                 Call GetAuthStatus] ++
                flat_map (fun i => [Deliver i (FromIssuer (issued "mock-access-token"))])
                  [0; 1; 2]%nat ++
                flat_map (fun i => [Deliver i Tick]) [0; 1; 2]%nat ++
                flat_map (fun i => [Deliver i (FromIssuer (issued "mock-access-token"))])
                  [0; 1; 2]%nat ++
                flat_map (fun i => [Deliver i (FromGraph true)]) [0; 1; 2]%nat)) =
  repeat (GetAuthStatus,
          Settled (StatusResult (Status.Build true (Some (js "t")) (Some (js "c")))))
    3.
Proof. vm_compute. reflexivity. Qed.

(** ** Static token: a malformed token, and an empty one *)

(** C2 at a malformed token, with the three credentials present. *)
Lemma static_token_disables_credential_flow_witness :
  (env invalid_token_world !! "AUTH_TOKEN" = Some (js "invalid-token") /\
   js "invalid-token" <> []) /\
  snd (initializeClient_begin invalid_token_world) = false /\
  (exists new,
     trace (initializeClient obliging invalid_token_world) =
       new ++ trace invalid_token_world /\ credential_free new) /\
  (validateToken (js "invalid-token") = None ->
   this (initializeClient obliging invalid_token_world) = this invalid_token_world).
Proof.
  assert (H1 : env invalid_token_world !! "AUTH_TOKEN" = Some (js "invalid-token"))
    by (vm_compute; reflexivity).
  assert (H2 : js "invalid-token" <> []) by discriminate.
  split; [split; assumption|].
  exact (static_token_disables_credential_flow obliging invalid_token_world
           (js "invalid-token") H1 H2).
Defined.

(** [AUTH_TOKEN] is set, to the empty string, which is no valid token.
    The test of line 31 fails on it: [initializeClient] reads the three
    credential variables, asks the issuer, and initialises the service
    in client-credential mode. *)
Lemma empty_AUTH_TOKEN_falls_through :
  env empty_token_world !! "AUTH_TOKEN" = Some [] /\
  validateToken [] = None /\
  snd (initializeClient_begin empty_token_world) = true /\
  trace (initializeClient obliging empty_token_world) =
    [ClientCreated client0; request_t; EnvRead "AZURE_CLIENT_SECRET";
     EnvRead "AZURE_CLIENT_ID"; EnvRead "AZURE_TENANT_ID"; EnvRead "AUTH_TOKEN"] /\
  ~ credential_free (trace (initializeClient obliging empty_token_world)) /\
  this (initializeClient obliging empty_token_world) =
    MkService (Some client0) true (Some msal_t).
Proof. conjuncts; evaluate. Qed.

(** ** Overlapping initialisations *)

(** Two [getClient] calls are made before the issuer has answered
    either.  The answer to call 0 initialises the service; call 2, made
    after that, returns client 0.  Then the answer to call 1 arrives: a
    second client is built and installed, and call 3 returns client 1. *)
Lemma overlapping_initializations_build_two_clients :
  isInitialized (this (world (after overlapping_calls_1))) = true /\
  calls (after overlapping_calls_1) =
    [(GetClient, Settled (ClientResult client0));
     (GetClient, Suspended AtInitIssuer);
     (GetClient, Settled (ClientResult client0))] /\
  allocated (world (after overlapping_calls_1)) = 1%nat /\
  perform_all overlapping_calls_2 (after overlapping_calls_1) =
    Some (after (overlapping_calls_1 ++ overlapping_calls_2)) /\
  calls (after (overlapping_calls_1 ++ overlapping_calls_2)) =
    [(GetClient, Settled (ClientResult client0));
     (GetClient, Settled (ClientResult client1));
     (GetClient, Settled (ClientResult client0));
     (GetClient, Settled (ClientResult client1))] /\
  allocated (world (after (overlapping_calls_1 ++ overlapping_calls_2))) = 2%nat /\
  client0 <> client1.
Proof. conjuncts; evaluate. Qed.

(** C3 after [start_up], when nothing is in flight: the environment is
    emptied and [getClient] called again. *)
Lemma initialization_settles_witness :
  (init_settled (after start_up) /\
   client (this (world (after start_up))) = Some client0 /\
   perform_all later_call (after start_up) = Some (after (start_up ++ later_call))) /\
  client (this (world (after (start_up ++ later_call)))) = Some client0 /\
  allocated (world (after (start_up ++ later_call))) =
    allocated (world (after start_up)) /\
  calls (after (start_up ++ later_call)) !! 1%nat =
    Some (GetClient, Settled (ClientResult client0)).
Proof.
  assert (H1 : init_settled (after start_up)).
  { split; [vm_compute; reflexivity|].
    apply init_in_flight_check. vm_compute. reflexivity. }
  assert (H2 : client (this (world (after start_up))) = Some client0)
    by (vm_compute; reflexivity).
  assert (H3 : perform_all later_call (after start_up) =
               Some (after (start_up ++ later_call)))
    by (vm_compute; reflexivity).
  split; [auto|].
  destruct (initialization_settles (after start_up) client0 later_call
              (after (start_up ++ later_call)) H1 H2 H3) as (Hc & Ha & _).
  split; [exact Hc|]. split; [exact Ha|]. vm_compute. reflexivity.
Defined.

(** ** A probe that fails *)

(** C4 after [start_up], with a Graph that refuses. *)
Lemma probe_failure_keeps_session_witness :
  (reachable (after start_up) /\
   client (this (world (after start_up))) = Some client0 /\
   snd (probe unreachable client0 (world (after start_up))) = false) /\
  exists w',
    getAuthStatus unreachable (world (after start_up)) = (w', unauthenticated) /\
    this w' = this (world (after start_up)) /\
    forall net', getClient net' w' = (w', Normal client0).
Proof.
  assert (H1 : client (this (world (after start_up))) = Some client0)
    by (vm_compute; reflexivity).
  assert (H2 : snd (probe unreachable client0 (world (after start_up))) = false)
    by (vm_compute; reflexivity).
  split; [split; [apply reachable_after | auto]|].
  exact (proj1 (probe_failure_keeps_session unreachable (after start_up) client0
                  (reachable_after start_up) H1 H2)).
Defined.

(** ** No configuration *)

(** C5 at power-on, with an empty environment. *)
Lemma getClient_rejects_naming_variables_witness :
  client (this (initializeClient obliging boot)) = None /\
  exists e,
    snd (getClient obliging boot) = Throw e /\
    resume GetClient AtInitialize Tick (initializeClient obliging boot) =
      Some (initializeClient obliging boot, Settled (Rejected e)) /\
    names_the_variables e.
Proof.
  assert (H : client (this (initializeClient obliging boot)) = None)
    by (vm_compute; reflexivity).
  split; [exact H|].
  exact (getClient_rejects_naming_variables obliging boot H).
Defined.

(** ** The environment changes after initialisation *)

(** C6: the service was initialised with tenant [t] and client [c]; the
    environment of the call names [t2] and [c2]. *)
Lemma getAuthStatus_reads_live_environment_witness :
  (client (this (initializeClient obliging (set_env renamed (world (after start_up)))))
     = Some client0 /\
   snd (probe obliging client0
          (initializeClient obliging (set_env renamed (world (after start_up)))))
     = true) /\
  snd (getAuthStatus obliging (set_env renamed (world (after start_up)))) =
  Status.Build true (Some (js "t2")) (Some (js "c2")).
Proof.
  assert (H1 : client (this (initializeClient obliging
                 (set_env renamed (world (after start_up))))) = Some client0)
    by (vm_compute; reflexivity).
  assert (H2 : snd (probe obliging client0 (initializeClient obliging
                 (set_env renamed (world (after start_up))))) = true)
    by (vm_compute; reflexivity).
  split; [auto|].
  apply (proj1 (proj2 (getAuthStatus_reads_live_environment obliging
                         (set_env renamed (world (after start_up))) client0 H1 H2))).
  - vm_compute. reflexivity.
  - vm_compute. reflexivity.
Defined.

(** ** The mode *)

(** First: the first attempt finds a malformed static token and takes
    the static-token branch, which fails; the environment then holds
    credentials and the second attempt initialises the service in
    client-credential mode.  Second: a call waits for the issuer while a
    static token appears in the environment and another call installs a
    static-token client; when the issuer answers the first call the
    client is replaced and the mode goes from static token to client
    credential. *)
Lemma mode_changes_after_first_attempt :
  (selected_mode malformed = StaticToken /\
   trace (fst (getClient obliging (set_env malformed boot))) =
     [ConsoleError (js "Invalid JWT token: missing claims"); EnvRead "AUTH_TOKEN"] /\
   active_mode second_attempt = None /\
   active_mode (fst (getClient obliging second_attempt)) = Some ClientCredential) /\
  (active_mode (world (after static_then_late_answer_1)) = Some StaticToken /\
   perform_all static_then_late_answer_2 (after static_then_late_answer_1) =
     Some (after (static_then_late_answer_1 ++ static_then_late_answer_2)) /\
   active_mode (world (after (static_then_late_answer_1 ++ static_then_late_answer_2)))
     = Some ClientCredential).
Proof. conjuncts; evaluate. Qed.

(** C7 after [start_up], when nothing is in flight: a valid static
    token appears in the environment and [getClient] is called again. *)
Lemma mode_fixed_by_successful_initialization_witness :
  (init_settled (after start_up) /\
   active_mode (world (after start_up)) = Some ClientCredential /\
   perform_all static_token_appears (after start_up) =
     Some (after (start_up ++ static_token_appears))) /\
  active_mode (world (after (start_up ++ static_token_appears))) =
    Some ClientCredential.
Proof.
  assert (H1 : init_settled (after start_up)).
  { split; [vm_compute; reflexivity|].
    apply init_in_flight_check. vm_compute. reflexivity. }
  assert (H2 : active_mode (world (after start_up)) = Some ClientCredential)
    by (vm_compute; reflexivity).
  assert (H3 : perform_all static_token_appears (after start_up) =
               Some (after (start_up ++ static_token_appears)))
    by (vm_compute; reflexivity).
  split; [auto|].
  exact (proj1 (mode_fixed_by_successful_initialization (after start_up)
                  ClientCredential static_token_appears
                  (after (start_up ++ static_token_appears)) H1 H2 H3)).
Defined.

(** ** The token provider *)

(** C8 after [start_up], with an issuer that numbers its tokens. *)
Lemma provider_asks_issuer_each_time_witness :
  (reachable (after start_up) /\
   client (this (world (after start_up))) = Some client0 /\
   authProvider client0 = ViaAcquireToken) /\
  getAccessToken counting client0 (world (after start_up)) =
    (note request_t (world (after start_up)), Normal (js "token-2")).
Proof.
  assert (H1 : client (this (world (after start_up))) = Some client0)
    by (vm_compute; reflexivity).
  split; [split; [apply reachable_after | auto]|].
  destruct (provider_asks_issuer_each_time counting (after start_up) client0
              (reachable_after start_up) H1 eq_refl)
    as (app & w1 & Ha & -> & _ & Hg & _).
  rewrite Hg. vm_compute in Ha. injection Ha as <-. vm_compute. reflexivity.
Defined.

(** Two invocations in a row: two requests, two different tokens. *)
Example provider_does_not_cache :
  getAccessToken counting client0 (world (after start_up)) =
    (note request_t (world (after start_up)), Normal (js "token-2")) /\
  getAccessToken counting client0 (note request_t (world (after start_up))) =
    (note request_t (note request_t (world (after start_up))), Normal (js "token-3")).
Proof. conjuncts; evaluate. Qed.

(** The service is initialised in client-credential mode; then the
    issuer rejects the request of an invocation of the provider.  The
    invocation is rejected with the issuer's error, and that error
    names none of the variables. *)
Lemma issuer_rejection_passes_through :
  client (this (fst (getClient revoked (set_env credentials boot)))) = Some client0 /\
  authProvider client0 = ViaAcquireToken /\
  issuer revoked
    (request_t :: trace (fst (getClient revoked (set_env credentials boot)))) =
    IssuerRejects (MkError (js "invalid_client")) /\
  snd (getAccessToken revoked client0
         (fst (getClient revoked (set_env credentials boot)))) =
    Throw (MkError (js "invalid_client")) /\
  str_includes (js "invalid_client") (js "AZURE_TENANT_ID") = false /\
  ~ names_the_variables (MkError (js "invalid_client")).
Proof.
  conjuncts; try evaluate.
  intros (H & _). vm_compute in H. discriminate.
Qed.

(** ** An expired token without header and signature *)

(** C9 at [.p.] where [p] is the base64 form of a payload with the
    Graph audience and [exp] = 1. *)
Lemma validateToken_checks_audience_only_witness :
  (atob expired_payload = Some expired_text /\
   JSON_parse expired_text =
     Some (JObject [(js "aud", JString GRAPH_AUDIENCE); (js "exp", JNumber (js "1"))])) /\
  validateToken ([] ++ 46 :: expired_payload ++ 46 :: []) =
  Some ([] ++ 46 :: expired_payload ++ 46 :: []).
Proof.
  assert (H1 : atob expired_payload = Some expired_text) by (vm_compute; reflexivity).
  assert (H2 : JSON_parse expired_text =
               Some (JObject [(js "aud", JString GRAPH_AUDIENCE);
                              (js "exp", JNumber (js "1"))]))
    by (vm_compute; reflexivity).
  split; [auto|].
  apply (validateToken_checks_audience_only [] expired_payload [] expired_text
           (JObject [(js "aud", JString GRAPH_AUDIENCE); (js "exp", JNumber (js "1"))])
           (JString GRAPH_AUDIENCE)).
  - apply not_elem_of_nil.
  - apply not_elem_of_nil.
  - exact H1.
  - exact H2.
  - apply (audience_claim_member [] [(js "exp", JNumber (js "1"))]).
    apply (bool_decide_unpack _). vm_compute. exact I.
  - left. reflexivity.
Defined.

(** ** The invariant after start-up *)

(** C10 after [start_up]. *)
Lemma initialized_has_client_witness :
  reachable (after start_up) /\
  isAuthenticated (this (world (after start_up))) = true /\
  (exists c, client (this (world (after start_up))) = Some c) /\
  forall net, exists c, snd (getClient net (world (after start_up))) = Normal c.
Proof.
  pose proof (initialized_has_client (after start_up) (reachable_after start_up))
    as (H1 & H2 & H3).
  assert (Ha : isAuthenticated (this (world (after start_up))) = true)
    by (vm_compute; reflexivity).
  split; [apply reachable_after|]. split; [exact Ha|]. split.
  - apply H1. rewrite <- H2. exact Ha.
  - apply (H3 Ha).
Defined.

(** ** The start-up check *)

Example validateEnv_examples :
  validateEnv ∅ =
    ([js "Missing required environment variables: AZURE_TENANT_ID, AZURE_CLIENT_ID, AZURE_CLIENT_SECRET";
      js "Set these in your environment or .env file."], Exits 1) /\
  validateEnv {[ "AZURE_TENANT_ID" := js "t"; "AZURE_CLIENT_SECRET" := [] ]} =
    ([js "Missing required environment variables: AZURE_CLIENT_ID, AZURE_CLIENT_SECRET";
      js "Set these in your environment or .env file."], Exits 1) /\
  validateEnv credentials = ([], Returns) /\
  validateEnv malformed = ([], Returns) /\
  validateEnv {[ "AUTH_TOKEN" := [] ]} =
    ([js "Missing required environment variables: AZURE_TENANT_ID, AZURE_CLIENT_ID, AZURE_CLIENT_SECRET";
      js "Set these in your environment or .env file."], Exits 1).
Proof. conjuncts; evaluate. Qed.

(** X2 with the three credentials in the environment. *)
Lemma validateEnv_agrees_with_initializeClient_witness :
  (isInitialized (this (set_env credentials boot)) = false /\
   truthy (env (set_env credentials boot) !! "AUTH_TOKEN") = None) /\
  (snd (validateEnv (env (set_env credentials boot))) = Returns <->
   snd (initializeClient_begin (set_env credentials boot)) = true).
Proof.
  assert (H1 : isInitialized (this (set_env credentials boot)) = false)
    by reflexivity.
  assert (H2 : truthy (env (set_env credentials boot) !! "AUTH_TOKEN") = None)
    by (vm_compute; reflexivity).
  split; [auto|].
  exact (proj1 (validateEnv_agrees_with_initializeClient
                  (set_env credentials boot) H1 H2)).
Defined.

(** X3 with a malformed token and nothing else. *)
Lemma validateEnv_accepts_invalid_token_witness :
  (malformed !! "AUTH_TOKEN" = Some (js "invalid-token") /\
   js "invalid-token" <> [] /\
   validateToken (js "invalid-token") = None) /\
  validateEnv malformed = ([], Returns) /\
  snd (getClient obliging (set_env malformed boot)) = Throw not_authenticated.
Proof.
  assert (H1 : malformed !! "AUTH_TOKEN" = Some (js "invalid-token"))
    by (vm_compute; reflexivity).
  assert (H2 : js "invalid-token" <> []) by discriminate.
  assert (H3 : validateToken (js "invalid-token") = None)
    by (vm_compute; reflexivity).
  split; [auto|].
  destruct (validateEnv_accepts_invalid_token malformed (js "invalid-token")
              H1 H2 H3) as [Hv Hg].
  split; [exact Hv|].
  exact (proj1 (Hg obliging (set_env malformed boot) eq_refl eq_refl eq_refl)).
Defined.

(** X11 with the token of the tests and nothing else. *)
Lemma valid_static_token_starts_up_witness :
  (static_only !! "AUTH_TOKEN" = Some graph_jwt /\
   graph_token graph_jwt) /\
  validateEnv static_only = ([], Returns) /\
  snd (getClient refusing (set_env static_only boot)) =
    Normal static_client.
Proof.
  assert (H1 : static_only !! "AUTH_TOKEN" = Some graph_jwt)
    by (vm_compute; reflexivity).
  assert (H2 : graph_token graph_jwt).
  { apply validation_valid. vm_compute. reflexivity. }
  split; [auto|].
  destruct (valid_static_token_starts_up static_only
              graph_jwt H1 H2) as [Hv Hg].
  split; [exact Hv|].
  exact (proj1 (Hg refusing (set_env static_only boot)
                  eq_refl eq_refl)).
Defined.

(** ** An issuer that rejects *)

(** X4 after [rejected_start_up]: the call has settled, with a status. *)
Lemma issuer_errors_stay_inside_witness :
  (reachable (after rejected_start_up) /\
   calls (after rejected_start_up) !! 0%nat =
     Some (GetAuthStatus, Settled (StatusResult unauthenticated))) /\
  exists s, StatusResult unauthenticated = StatusResult s.
Proof.
  assert (H : calls (after rejected_start_up) !! 0%nat =
              Some (GetAuthStatus, Settled (StatusResult unauthenticated)))
    by (vm_compute; reflexivity).
  split; [split; [apply reachable_after | exact H]|].
  exact (proj1 (issuer_errors_stay_inside (after rejected_start_up) 0
                  (StatusResult unauthenticated)
                  (reachable_after rejected_start_up)) H).
Defined.

(** X5 with an issuer that rejects: the call fails and the next one
    asks again. *)
Lemma failed_initialization_is_retried_witness :
  (isInitialized (this (set_env credentials boot)) = false /\
   client (this (set_env credentials boot)) = None /\
   truthy (env (set_env credentials boot) !! "AUTH_TOKEN") = None /\
   truthy (env (set_env credentials boot) !! "AZURE_TENANT_ID") = Some (js "t") /\
   truthy (env (set_env credentials boot) !! "AZURE_CLIENT_ID") = Some (js "c") /\
   truthy (env (set_env credentials boot) !! "AZURE_CLIENT_SECRET") = Some (js "s")) /\
  snd (getClient refusing (set_env credentials boot)) = Throw not_authenticated /\
  isInitialized (this (fst (getClient refusing (set_env credentials boot)))) = false /\
  client (this (fst (getClient refusing (set_env credentials boot)))) = None /\
  snd (initializeClient_begin (fst (getClient refusing (set_env credentials boot))))
    = true.
Proof.
  assert (H1 : truthy (env (set_env credentials boot) !! "AUTH_TOKEN") = None)
    by (vm_compute; reflexivity).
  assert (H2 : truthy (env (set_env credentials boot) !! "AZURE_TENANT_ID")
               = Some (js "t")) by (vm_compute; reflexivity).
  assert (H3 : truthy (env (set_env credentials boot) !! "AZURE_CLIENT_ID")
               = Some (js "c")) by (vm_compute; reflexivity).
  assert (H4 : truthy (env (set_env credentials boot) !! "AZURE_CLIENT_SECRET")
               = Some (js "s")) by (vm_compute; reflexivity).
  split; [auto 10|].
  exact (proj2 (proj2 (proj2
    (failed_initialization_is_retried refusing (set_env credentials boot)
       (js "t") (js "c") (js "s") eq_refl eq_refl H1 H2 H3 H4)))).
Defined.

(** The same environment with an issuer that issues on the second
    request only: the second call succeeds. *)
Example second_call_succeeds :
  snd (getClient hesitant (set_env credentials boot)) = Throw not_authenticated /\
  snd (getClient hesitant (fst (getClient hesitant (set_env credentials boot)))) =
    Normal client0.
Proof. conjuncts; evaluate. Qed.

(** ** The requests after start-up *)

(** X6 after [start_up]. *)
Lemma token_requests_carry_configuration_witness :
  (reachable (after start_up) /\ request_t ∈ trace (world (after start_up))) /\
  [CLIENT_CREDENTIAL_SCOPE] = [CLIENT_CREDENTIAL_SCOPE] /\
  Msal.clientId msal_t <> [] /\
  Msal.clientSecret msal_t <> [] /\
  exists tenantId,
    tenantId <> [] /\
    Msal.authority msal_t = js "https://login.microsoftonline.com/" ++ tenantId.
Proof.
  assert (E : trace (world (after start_up)) =
              [ClientCreated client0; request_t; EnvRead "AZURE_CLIENT_SECRET";
               EnvRead "AZURE_CLIENT_ID"; EnvRead "AZURE_TENANT_ID";
               EnvRead "AUTH_TOKEN"]) by (vm_compute; reflexivity).
  assert (H : request_t ∈ trace (world (after start_up))).
  { rewrite E. apply elem_of_cons. right. apply elem_of_cons. left. reflexivity. }
  split; [split; [apply reachable_after | exact H]|].
  exact (token_requests_carry_configuration (after start_up) msal_t
           [CLIENT_CREDENTIAL_SCOPE] (reachable_after start_up) H).
Defined.

(** X8 after [start_up], with an issuer that numbers its tokens. *)
Lemma probe_asks_issuer_first_witness :
  (reachable (after start_up) /\
   client (this (world (after start_up))) = Some client0 /\
   authProvider client0 = ViaAcquireToken) /\
  trace (fst (getAuthStatus counting (world (after start_up)))) =
    EnvRead "AZURE_CLIENT_ID" :: EnvRead "AZURE_TENANT_ID" ::
    GraphGet ORGANIZATION (js "token-2") :: request_t ::
    trace (world (after start_up)).
Proof.
  assert (H1 : client (this (world (after start_up))) = Some client0)
    by (vm_compute; reflexivity).
  split; [split; [apply reachable_after | auto]|].
  destruct (probe_asks_issuer_first counting (after start_up) client0
              (reachable_after start_up) H1 eq_refl) as (app & Ha & Hg).
  vm_compute in Ha. injection Ha as <-. cbv zeta in Hg.
  change (issuer counting
            (trace (note (TokenRequest msal_t [CLIENT_CREDENTIAL_SCOPE])
                      (world (after start_up)))))
    with (IssuerResolves (Some (MkAuthResult (js "token-2")))) in Hg.
  rewrite Hg. vm_compute. reflexivity.
Defined.

(** A status check with an issuer that rejects: Graph is not asked. *)
Example probe_without_token :
  getAuthStatus revoked (world (after start_up)) =
    (note (ConsoleError (js "Error verifying auth:"))
       (note request_t (world (after start_up))), unauthenticated).
Proof. vm_compute. reflexivity. Qed.

(** ** A static token taken out of the environment *)

(** X7 after [static_start_up]. *)
Lemma static_client_serves_validated_token_witness :
  (reachable (after static_start_up) /\
   client (this (world (after static_start_up))) = Some static_client /\
   authProvider static_client = FixedToken graph_jwt /\
   env (world (after static_start_up)) = ∅) /\
  graph_token graph_jwt /\
  (forall net w, getAccessToken net static_client w = (w, Normal graph_jwt)) /\
  trace (fst (getAuthStatus refusing (world (after static_start_up)))) =
    EnvRead "AZURE_CLIENT_ID" :: EnvRead "AZURE_TENANT_ID" ::
    GraphGet ORGANIZATION graph_jwt :: trace (world (after static_start_up)).
Proof.
  assert (H1 : client (this (world (after static_start_up))) = Some static_client)
    by (vm_compute; reflexivity).
  assert (H2 : env (world (after static_start_up)) = ∅)
    by (vm_compute; reflexivity).
  split; [split; [apply reachable_after | auto]|].
  destruct (static_client_serves_validated_token (after static_start_up)
              static_client graph_jwt (reachable_after static_start_up) H1 eq_refl)
    as (Hg & Hp & Hs).
  split; [exact Hg|]. split; [exact Hp|].
  destruct (Hs refusing) as [E _]. rewrite E. reflexivity.
Defined.

(** X10 along [later_call], after [start_up]. *)
Lemma initialization_is_never_undone_witness :
  perform_all later_call (after start_up) = Some (after (start_up ++ later_call)) /\
  (isInitialized (this (world (after start_up))) = true ->
   isInitialized (this (world (after (start_up ++ later_call)))) = true) /\
  (client (this (world (after start_up))) <> None ->
   client (this (world (after (start_up ++ later_call)))) <> None) /\
  (msalApp (this (world (after start_up))) <> None ->
   msalApp (this (world (after (start_up ++ later_call)))) <> None) /\
  (allocated (world (after start_up)) <=
   allocated (world (after (start_up ++ later_call))))%nat.
Proof.
  assert (H : perform_all later_call (after start_up) =
              Some (after (start_up ++ later_call)))
    by (vm_compute; reflexivity).
  split; [exact H|].
  exact (initialization_is_never_undone later_call (after start_up)
           (after (start_up ++ later_call)) H).
Defined.

(** ** Tokens in base64url, tokens without padding *)

(** X12 at a middle segment with [-] and [_]. *)
Lemma validateToken_rejects_base64url_witness :
  (split 46 (js "header.e-_.signature") = [js "header"; js "e-_"; js "signature"] /\
   45 ∈ js "e-_" /\
   base64_value 45 = None /\ is_ascii_whitespace 45 = false /\ 45 <> 61) /\
  validateToken (js "header.e-_.signature") = None.
Proof.
  assert (H1 : split 46 (js "header.e-_.signature") =
               [js "header"; js "e-_"; js "signature"]) by (vm_compute; reflexivity).
  assert (H2 : 45 ∈ js "e-_").
  { apply (bool_decide_unpack _). vm_compute. exact I. }
  assert (H3 : (45 : N) <> 61) by discriminate.
  split; [auto 10|].
  exact (proj1 (validateToken_rejects_base64url (js "header.e-_.signature")
                  (js "header") (js "e-_") (js "signature") 45
                  H1 H2 eq_refl eq_refl H3)).
Defined.

(** X13 at the token of the tests. *)
Lemma validateToken_padding_optional_witness :
  ((46 ∉ js "header") /\ (46 ∉ unpadded_payload) /\ (46 ∉ js "signature") /\
   (61 ∉ unpadded_payload) /\
   N.of_nat (length (filter (fun c => is_ascii_whitespace c = false)
                       unpadded_payload)) mod 4 = 2) /\
  validation (js "header" ++ 46 :: (unpadded_payload ++ [61; 61]) ++ 46 :: js "signature")
  = validation (js "header" ++ 46 :: unpadded_payload ++ 46 :: js "signature") /\
  validateToken (js "header.eyJhdWQiOiJodHRwczovL2dyYXBoLm1pY3Jvc29mdC5jb20ifQ.signature")
  <> None.
Proof.
  assert (H1 : 46 ∉ js "header") by (apply (bool_decide_unpack _); vm_compute; exact I).
  assert (H2 : 46 ∉ unpadded_payload)
    by (apply (bool_decide_unpack _); vm_compute; exact I).
  assert (H3 : 46 ∉ js "signature")
    by (apply (bool_decide_unpack _); vm_compute; exact I).
  assert (H4 : 61 ∉ unpadded_payload)
    by (apply (bool_decide_unpack _); vm_compute; exact I).
  assert (H5 : N.of_nat (length (filter (fun c => is_ascii_whitespace c = false)
                                   unpadded_payload)) mod 4 = 2)
    by (vm_compute; reflexivity).
  split; [auto 10|].
  split.
  - exact (proj1 (validateToken_padding_optional (js "header") unpadded_payload
                    (js "signature") [61; 61] H1 H2 H3 H4
                    (or_intror (conj eq_refl H5)))).
  - vm_compute. discriminate.
Defined.

(** ** The tools *)

(** X14 with an empty environment. *)
Lemma delete_channel_message_unauthenticated_witness :
  client (this (initializeClient obliging (service (new_session ∅)))) = None /\
  delete_channel_message obliging compliant (js "t1") (js "c1") (js "m1") None
    (new_session ∅) =
  (MkSession
     (MkWorld fresh ∅ 0
        (ConsoleError missing_variables :: credential_reads)) [],
   MkResult
     (10060 :: js " Failed to delete message: Not authenticated. Check AZURE_TENANT_ID, AZURE_CLIENT_ID, and AZURE_CLIENT_SECRET environment variables.")
     true).
Proof.
  assert (H : client (this (initializeClient obliging (service (new_session ∅))))
              = None) by (vm_compute; reflexivity).
  split; [exact H|].
  pose proof (delete_channel_message_unauthenticated obliging compliant
                (js "t1") (js "c1") (js "m1") None (new_session ∅) H)
    as (H1 & H2 & H3 & _).
  destruct (delete_channel_message obliging compliant (js "t1") (js "c1")
              (js "m1") None (new_session ∅)) as [[w requests] [t e]] eqn:E.
  simpl in H1, H2, H3. subst requests e t.
  apply (f_equal (fun r => service (fst r))) in E. simpl in E. subst w.
  vm_compute. reflexivity.
Defined.

(** X16 after [start_up], with an issuer that rejects from the second
    request on. *)
Lemma delete_channel_message_asks_issuer_witness :
  (reachable (after start_up) /\
   client (this (world (after start_up))) = Some client0 /\
   authProvider client0 = ViaAcquireToken) /\
  delete_channel_message revoked compliant (js "t1") (js "c1") (js "m1") None
    (MkSession (world (after start_up)) []) =
  (MkSession (note request_t (world (after start_up))) [],
   MkResult (10060 :: js " Failed to delete message: invalid_client") true).
Proof.
  assert (H1 : client (this (world (after start_up))) = Some client0)
    by (vm_compute; reflexivity).
  split; [split; [apply reachable_after | auto]|].
  destruct (delete_channel_message_asks_issuer revoked compliant (after start_up)
              client0 (js "t1") (js "c1") (js "m1") None []
              (reachable_after start_up) H1 eq_refl) as (app & Ha & Hd).
  vm_compute in Ha. injection Ha as <-. cbv zeta in Hd.
  change (issuer revoked
            (trace (note (TokenRequest msal_t [CLIENT_CREDENTIAL_SCOPE])
                      (world (after start_up)))))
    with (IssuerRejects (MkError (js "invalid_client"))) in Hd.
  rewrite Hd. reflexivity.
Defined.

Example delete_channel_message_examples :
  delete_channel_message obliging compliant (js "t1") (js "c1") (js "m1")
    (Some (js "r1")) (new_session static_only) =
  (MkSession
     (MkWorld (MkService (Some static_client) true None)
        static_only 1
        [ClientCreated static_client; EnvRead "AUTH_TOKEN"])
     [MkRequest POST (js "/teams/t1/channels/c1/messages/m1/replies/r1/softDelete")
        graph_jwt (Some (JObject []))],
   MkResult (9989 :: js " Reply deleted successfully. Reply ID: r1") false) /\
  snd (delete_channel_message obliging compliant (js "t1") (js "c1") (js "m1")
         (Some []) (new_session static_only)) =
  MkResult (9989 :: js " Message deleted successfully. Message ID: m1") false /\
  snd (delete_channel_message obliging forbidden (js "t1") (js "c1") (js "m1")
         None (new_session static_only)) =
  MkResult (10060 :: js " Failed to delete message: Forbidden") true /\
  snd (delete_channel_message revoked compliant (js "t1") (js "c1") (js "m1")
         None (new_session credentials)) =
  MkResult (10060 :: js " Failed to delete message: invalid_client") true.
Proof. conjuncts; evaluate. Qed.

Example teamIds_examples :
  teamIds (js "team-1, team-2 ,,team-3,") = [js "team-1"; js "team-2"; js "team-3"] /\
  teamIds (js " , ") = [] /\
  teamIds (js "a b") = [js "a b"] /\
  teamIds (9 :: js "x" ++ [160; 8232]) = [js "x"].
Proof. conjuncts; evaluate. Qed.

(** X19 at two ids. *)
Lemma teamIds_join_witness :
  Forall plain_id [js "team-1"; js "team-2"] /\
  teamIds (join 44 [js "team-1"; js "team-2"]) = [js "team-1"; js "team-2"].
Proof.
  assert (H : Forall plain_id [js "team-1"; js "team-2"]).
  { repeat constructor; try discriminate;
      try (apply (bool_decide_unpack _); vm_compute; exact I);
      intros c [= <-]; reflexivity. }
  split; [exact H|].
  exact (teamIds_join [js "team-1"; js "team-2"] H).
Defined.

(** X20 with a Graph that knows [team-1] only. *)
Lemma list_teams_filter_requests_witness :
  authProvider static_client = FixedToken graph_jwt /\
  sent (fst (fetch_teams obliging one_team static_client
               (teamIds (js "team-0, team-1")) []
               (new_session static_only))) =
    rev (map (fun id => MkRequest GET (js "/teams/" ++ id) graph_jwt None)
           (teamIds (js "team-0, team-1"))) ++ [] /\
  snd (fetch_teams obliging one_team static_client
         (teamIds (js "team-0, team-1")) []
         (new_session static_only)) =
    [MkTeamSummary (Some (JString (js "team-1"))) (Some (JString (js "Team One")))
       None None].
Proof.
  split; [reflexivity|]. split.
  - exact (proj1 (list_teams_filter_requests obliging one_team static_client
                    graph_jwt (js "team-0, team-1")
                    (new_session static_only) eq_refl)).
  - vm_compute. reflexivity.
Defined.

Example isUncPath_examples :
  map (fun p => (normalizedPath (js p), isUncPath (js p)))
    [ "\\\\wsl.localhost\\Ubuntu\\tmp\\file.png";
      "\\wsl.localhost\Ubuntu\tmp\file.png";
      "\\\server\share";
      "//server/share";
      "C:\\tmp\\file.png";
      "/tmp/file.png" ]
  = [ (js "\\wsl.localhost\Ubuntu\tmp\file.png", true);
      (js "\wsl.localhost\Ubuntu\tmp\file.png", false);
      (js "\\server\share", true);
      (js "//server/share", true);
      (js "C:\tmp\file.png", false);
      (js "/tmp/file.png", false) ].
Proof. vm_compute. reflexivity. Qed.
